(** * s3_sync.py: the replication-plan execution of S3BucketSync

    A shallow embedding of [src/s3_sync.py].  Every method of the class
    [S3BucketSync] is a computation in a state-and-exception monad [M]
    over the Python object [self], the outside world (credentials, the
    file system, the S3 service) and the log of calls made on the S3
    client.

    What is left out: the [logger] calls, the two [print] calls of
    [main], the [tqdm] progress bar, [time.sleep] and the wall-clock
    reads of the summary.  None of them changes [self], the S3 service
    or the control flow.  The two logger
    arguments that can raise are kept: [', '.join(dest_buckets)] in
    [_process_bucket_config] and [len(self.bucket_configs)] in
    [_load_config].

    The calls of the outside world raise instances of Python's
    [Exception] only; signals delivered asynchronously (a user
    interrupt) are not raised by them.  Every statement below about a run
    is therefore about a run that no interrupt cuts short. *)

From Stdlib Require Import List String Ascii ZArith Arith Bool Lia.
Import ListNotations.
Local Open Scope string_scope.
Local Open Scope list_scope.

(** ** Python values: what [yaml.safe_load] hands to the program *)

#[local] Set Warnings "-register-all".
Inductive value : Type :=
| VNone
| VBool (b : bool)
| VInt (n : Z)
| VStr (s : string)
| VList (items : list value)
| VDict (entries : list (value * value)).

(** ** Exceptions *)

(** Instances of [Exception].  [ClientError code] is botocore's error for
    a request the service answered with an error; [code] is its
    [response['Error']['Code']].  [OtherException name] stands for any
    other class, [name]d for the reader only. *)
Inductive exception : Type :=
| KeyError (key : string)
| TypeError
| AttributeError
| NoCredentialsError
| ClientError (code : string)
| YAMLError
| OtherException (name : string).

(** Instances of [BaseException]: [sys.exit] raises [SystemExit], which
    [except Exception] does not catch. *)
Inductive BaseException : Type :=
| Exc (e : exception)
| SystemExit (code : Z)
| KeyboardInterrupt.

Inductive result (A : Type) : Type :=
| Ok (a : A)
| Error (e : exception).
Arguments Ok {A} a.
Arguments Error {A} e.

Inductive outcome (A : Type) : Type :=
| Return (a : A)
| Raise (e : BaseException).
Arguments Return {A} a.
Arguments Raise {A} e.

(** ** The Python built-ins the program applies to configuration values

    A [str] is its sequence of characters; a dict is the list of its
    entries in insertion order, keys distinct. *)

Definition is_str (k : string) (v : value) : bool :=
  match v with
  | VStr s => String.eqb s k
  | _ => false
  end.

(** [d[k]] on a dict, for a [str] key [k]. *)
Fixpoint dict_get (k : string) (entries : list (value * value)) : option value :=
  match entries with
  | [] => None
  | (key, v) :: rest => if is_str k key then Some v else dict_get k rest
  end.

(** [v[k]] for a [str] key [k]: only a dict can be indexed by a string. *)
Definition py_getitem (v : value) (k : string) : result value :=
  match v with
  | VDict entries =>
      match dict_get k entries with
      | Some x => Ok x
      | None => Error (KeyError k)
      end
  | _ => Error TypeError
  end.

(** [k in v] for a [str] [k]: key of a dict, element of a list, substring
    of a string. *)
Definition py_contains (k : string) (v : value) : result bool :=
  match v with
  | VDict entries => Ok (existsb (is_str k) (map fst entries))
  | VList items => Ok (existsb (is_str k) items)
  | VStr s => Ok (match index 0 k s with Some _ => true | None => false end)
  | _ => Error TypeError
  end.

Definition py_len (v : value) : result nat :=
  match v with
  | VDict entries => Ok (List.length entries)
  | VList items => Ok (List.length items)
  | VStr s => Ok (String.length s)
  | _ => Error TypeError
  end.

(** [for x in v]: the items of a list, the characters of a string, the
    keys of a dict. *)
Definition py_iter (v : value) : result (list value) :=
  match v with
  | VDict entries => Ok (map fst entries)
  | VList items => Ok items
  | VStr s => Ok (map (fun c => VStr (String c EmptyString)) (list_ascii_of_string s))
  | _ => Error TypeError
  end.

Fixpoint all_str (items : list value) : option (list string) :=
  match items with
  | [] => Some []
  | VStr s :: rest =>
      match all_str rest with
      | Some l => Some (s :: l)
      | None => None
      end
  | _ :: _ => None
  end.

(** [sep.join(v)]: [v] must be iterable and hold strings only. *)
Definition py_join (sep : string) (v : value) : result string :=
  match py_iter v with
  | Error e => Error e
  | Ok items =>
      match all_str items with
      | Some l => Ok (String.concat sep l)
      | None => Error TypeError
      end
  end.

(** ** The S3 service as the program sees it *)

(** One entry of a listing page's ['Contents']; only ['Key'] is read. *)
Record ObjectRecord : Type := {
  Key : string;
  Size : Z;
  ETag : string
}.

(** One page of [list_objects_v2]; [Contents] is absent on an empty page. *)
Record Page : Type := {
  Contents : option (list ObjectRecord)
}.

(** The [CopySource] dict of a copy request. *)
Record copy_source : Type := {
  source_Bucket : value;
  source_Key : string
}.

(** The keyword arguments of [copy_object]: [CopySource], [Bucket], [Key]. *)
Record CopyRequest : Type := {
  CopySource : copy_source;
  dest_Bucket : value;
  dest_Key : string
}.

Inductive Credentials : Type := credentials_found.
Inductive S3Client : Type := s3.

(** The outside world, a state of type [World] that every call may change.
    - [get_credentials]: [boto3.Session().get_credentials()], [None] when
      the environment holds no credentials;
    - [boto3_client]: [boto3.client('s3')];
    - [path_exists]: [os.path.exists];
    - [safe_load path]: [open(path, 'r')] followed by [yaml.safe_load];
    - [head_bucket], [copy_object]: the client methods of these names;
    - [paginate]: [get_paginator('list_objects_v2').paginate(Bucket=...)]
      run to its end, giving the pages the iterator delivers and the
      exception, if any, that ends the iteration. *)
Class Environment (World : Type) : Type := {
  get_credentials : World -> World * result (option Credentials);
  boto3_client : World -> World * result S3Client;
  path_exists : World -> string -> bool;
  safe_load : string -> World -> World * result value;
  head_bucket : value -> World -> World * result unit;
  paginate : value -> World -> World * (list Page * option exception);
  copy_object : CopyRequest -> World -> World * result unit
}.

(** The calls made on the S3 client, with what came back. *)
Inductive api_call : Type :=
| HeadBucket (Bucket : value)
| ListObjectsV2 (Bucket : value)
| CopyObject (request : CopyRequest).

Record api_event : Type := {
  call : api_call;
  pages : list Page;
  error : option exception
}.

Definition error_of {A : Type} (r : result A) : option exception :=
  match r with
  | Ok _ => None
  | Error e => Some e
  end.

Definition is_ok {A : Type} (r : result A) : bool :=
  match r with
  | Ok _ => true
  | Error _ => false
  end.

(** ** The object [self] *)

Record S3BucketSync : Type := {
  config_file : string;
  s3_client : option S3Client;
  bucket_configs : value;
  total_files_copied : nat;
  total_files_failed : nat
}.

(** [__init__] *)
Definition __init__ (config_file : string) : S3BucketSync :=
  {| config_file := config_file;
     s3_client := None;
     bucket_configs := VList [];
     total_files_copied := 0;
     total_files_failed := 0 |}.

Definition set_s3_client (c : S3Client) (o : S3BucketSync) : S3BucketSync :=
  {| config_file := config_file o;
     s3_client := Some c;
     bucket_configs := bucket_configs o;
     total_files_copied := total_files_copied o;
     total_files_failed := total_files_failed o |}.

Definition set_bucket_configs (v : value) (o : S3BucketSync) : S3BucketSync :=
  {| config_file := config_file o;
     s3_client := s3_client o;
     bucket_configs := v;
     total_files_copied := total_files_copied o;
     total_files_failed := total_files_failed o |}.

Definition incr_copied (o : S3BucketSync) : S3BucketSync :=
  {| config_file := config_file o;
     s3_client := s3_client o;
     bucket_configs := bucket_configs o;
     total_files_copied := total_files_copied o + 1;
     total_files_failed := total_files_failed o |}.

Definition incr_failed (o : S3BucketSync) : S3BucketSync :=
  {| config_file := config_file o;
     s3_client := s3_client o;
     bucket_configs := bucket_configs o;
     total_files_copied := total_files_copied o;
     total_files_failed := total_files_failed o + 1 |}.

(** ** The monad of the methods: state and exceptions *)

Section Replicator.

Context {World : Type} {env : Environment World}.

Record state : Type := {
  self : S3BucketSync;
  world : World;
  calls : list api_event
}.

Definition M (A : Type) : Type := state -> outcome A * state.

Definition ret {A : Type} (a : A) : M A := fun st => (Return a, st).

Definition raise {A : Type} (e : BaseException) : M A := fun st => (Raise e, st).

Definition bind {A B : Type} (m : M A) (k : A -> M B) : M B :=
  fun st =>
    match m st with
    | (Return a, st') => k a st'
    | (Raise e, st') => (Raise e, st')
    end.

Notation "x <- m ;; k" := (bind m (fun x => k))
  (at level 61, m at next level, right associativity).
Notation "m ;; k" := (bind m (fun _ => k))
  (at level 61, right associativity).

(** [try: m  except ...: handler e]; [handler e = None] when no clause
    matches [e].  An exception raised by a handler is not caught by
    its sibling clauses. *)
Definition try_except {A : Type} (m : M A) (handler : BaseException -> option (M A)) : M A :=
  fun st =>
    match m st with
    | (Return a, st') => (Return a, st')
    | (Raise e, st') =>
        match handler e with
        | Some h => h st'
        | None => (Raise e, st')
        end
    end.

(** A pure Python operation that may raise. *)
Definition lift {A : Type} (r : result A) : M A :=
  match r with
  | Ok a => ret a
  | Error e => raise (Exc e)
  end.

(** [sys.exit(code)] *)
Definition sys_exit {A : Type} (code : Z) : M A := raise (SystemExit code).

Definition get_self : M S3BucketSync := fun st => (Return (self st), st).

Definition modify_self (f : S3BucketSync -> S3BucketSync) : M unit :=
  fun st => (Return tt, {| self := f (self st); world := world st; calls := calls st |}).

(** A call of the outside world that is not a call on the S3 client. *)
Definition env_call {A : Type} (f : World -> World * result A) : M A :=
  fun st =>
    let (w, r) := f (world st) in
    lift r {| self := self st; world := w; calls := calls st |}.

(** The state once the S3 service has answered a call: its new state and
    the call appended to the log. *)
Definition record_call (st : state) (w : World) (ev : api_event) : state :=
  {| self := self st; world := w; calls := calls st ++ [ev] |}.

(** [self.s3_client.<method>(...)]: an attribute lookup on [None] raises
    [AttributeError] before anything is sent. *)
Definition s3_call {A : Type} (c : api_call) (f : World -> World * A)
    (pgs : A -> list Page) (err : A -> option exception) : M A :=
  fun st =>
    match s3_client (self st) with
    | None => (Raise (Exc AttributeError), st)
    | Some _ =>
        let (w, r) := f (world st) in
        (Return r, record_call st w {| call := c; pages := pgs r; error := err r |})
    end.

(** [os.path.exists(path)] *)
Definition os_path_exists (path : string) : M bool :=
  fun st => (Return (path_exists (world st) path), st).

(** [for x in l: body x] *)
Fixpoint for_each {A : Type} (l : list A) (body : A -> M unit) : M unit :=
  match l with
  | [] => ret tt
  | x :: rest => body x ;; for_each rest body
  end.

(** ** The methods of [S3BucketSync] *)

Definition _initialize_s3_client : M unit :=
  try_except
    (credentials <- env_call get_credentials ;;
     match credentials with
     | None => raise (Exc NoCredentialsError)
     | Some _ =>
         c <- env_call boto3_client ;;
         modify_self (set_s3_client c)
     end)
    (fun e =>
       match e with
       | Exc NoCredentialsError => Some (sys_exit 1%Z)
       | Exc _ => Some (sys_exit 1%Z)
       | _ => None
       end).

Definition _load_config : M unit :=
  try_except
    (o <- get_self ;;
     present <- os_path_exists (config_file o) ;;
     if negb present then sys_exit 1%Z
     else
       config <- env_call (safe_load (config_file o)) ;;
       has_buckets <- lift (py_contains "buckets" config) ;;
       if negb has_buckets then sys_exit 1%Z
       else
         buckets <- lift (py_getitem config "buckets") ;;
         modify_self (set_bucket_configs buckets) ;;
         o' <- get_self ;;
         lift (py_len (bucket_configs o')) ;;
         ret tt)
    (fun e =>
       match e with
       | Exc YAMLError => Some (sys_exit 1%Z)
       | Exc _ => Some (sys_exit 1%Z)
       | _ => None
       end).

Definition _validate_bucket_exists (bucket_name : value) : M bool :=
  try_except
    (r <- s3_call (HeadBucket bucket_name) (head_bucket bucket_name)
           (fun _ => []) error_of ;;
     lift r ;;
     ret true)
    (fun e =>
       match e with
       | Exc (ClientError error_code) => Some (ret false)
       | _ => None
       end).

(** [objects.extend(page['Contents'])] for the pages that have the key. *)
Definition extend_with (objects : list ObjectRecord) (page : Page) : list ObjectRecord :=
  match Contents page with
  | Some contents => objects ++ contents
  | None => objects
  end.

Definition _list_objects (bucket_name : value) : M (list ObjectRecord) :=
  try_except
    (r <- s3_call (ListObjectsV2 bucket_name) (paginate bucket_name) fst snd ;;
     let objects := fold_left extend_with (fst r) [] in
     match snd r with
     | Some e => raise (Exc e)
     | None => ret objects
     end)
    (fun e =>
       match e with
       | Exc (ClientError _) => Some (ret [])
       | _ => None
       end).

Definition copy_request (source_bucket dest_bucket : value) (obj_key : string) : CopyRequest :=
  let copy_source := {| source_Bucket := source_bucket; source_Key := obj_key |} in
  {| CopySource := copy_source; dest_Bucket := dest_bucket; dest_Key := obj_key |}.

Definition _copy_object (source_bucket dest_bucket : value) (obj_key : string) : M bool :=
  try_except
    (let request := copy_request source_bucket dest_bucket obj_key in
     r <- s3_call (CopyObject request) (copy_object request) (fun _ => []) error_of ;;
     lift r ;;
     ret true)
    (fun e =>
       match e with
       | Exc (ClientError _) => Some (ret false)
       | Exc _ => Some (ret false)
       | _ => None
       end).

(** The body of the inner loop: one (object, destination) pair. *)
Definition copy_pair (source_bucket : value) (obj_key : string) (dest_bucket : value) : M unit :=
  copied <- _copy_object source_bucket dest_bucket obj_key ;;
  if copied then modify_self incr_copied
  else modify_self incr_failed.

Definition _copy_objects_to_destinations (source_bucket : value)
    (objects : list ObjectRecord) (dest_buckets : list value) : M unit :=
  let total_operations := List.length objects * List.length dest_buckets in
  if Nat.eqb total_operations 0 then ret tt
  else
    for_each objects (fun obj =>
      let obj_key := Key obj in
      for_each dest_buckets (copy_pair source_bucket obj_key)).

(** The loop that fills [valid_dest_buckets]. *)
Fixpoint validate_destinations (dest_buckets valid_dest_buckets : list value) : M (list value) :=
  match dest_buckets with
  | [] => ret valid_dest_buckets
  | dest_bucket :: rest =>
      valid <- _validate_bucket_exists dest_bucket ;;
      if valid then validate_destinations rest (valid_dest_buckets ++ [dest_bucket])
      else validate_destinations rest valid_dest_buckets
  end.

Definition _process_bucket_config (config : value) : M unit :=
  source_bucket <- lift (py_getitem config "source_bucket") ;;
  dest_buckets <- lift (py_getitem config "destination_buckets") ;;
  lift (py_join ", " dest_buckets) ;;
  source_valid <- _validate_bucket_exists source_bucket ;;
  if negb source_valid then ret tt
  else
    dests <- lift (py_iter dest_buckets) ;;
    valid_dest_buckets <- validate_destinations dests [] ;;
    match valid_dest_buckets with
    | [] => ret tt
    | _ :: _ =>
        objects <- _list_objects source_bucket ;;
        match objects with
        | [] => ret tt
        | _ :: _ =>
            _copy_objects_to_destinations source_bucket objects valid_dest_buckets
        end
    end.

(** The body of the orchestrator's loop: [try: ... except Exception: continue]. *)
Definition process_guarded (config : value) : M unit :=
  try_except (_process_bucket_config config)
    (fun e =>
       match e with
       | Exc _ => Some (ret tt)
       | _ => None
       end).

(** The orchestrator's loop over the plan. *)
Definition process_all (configs : list value) : M unit :=
  for_each configs process_guarded.

Definition sync_buckets : M unit :=
  _initialize_s3_client ;;
  _load_config ;;
  o <- get_self ;;
  configs <- lift (py_iter (bucket_configs o)) ;;
  process_all configs ;;
  o' <- get_self ;;
  if Nat.ltb 0 (total_files_failed o') then sys_exit 1%Z
  else ret tt.

(** The state [main] starts from: [sync = S3BucketSync()] in the world
    [w], no call made yet. *)
Definition start (w : World) : state :=
  {| self := __init__ "buckets.yaml"; world := w; calls := [] |}.

(** [main]: a fresh [S3BucketSync()] run in the world [w]. *)
Definition main (w : World) : outcome unit * state :=
  try_except sync_buckets
    (fun e =>
       match e with
       | KeyboardInterrupt => Some (sys_exit 1%Z)
       | Exc _ => Some (sys_exit 1%Z)
       | _ => None
       end)
    (start w).

(** The status the process ends with: 0 when [main] returns, the code
    of an uncaught [SystemExit], 1 for any other uncaught exception. *)
Definition exit_status (o : outcome unit) : Z :=
  match o with
  | Return _ => 0%Z
  | Raise (SystemExit code) => code
  | Raise _ => 1%Z
  end.

End Replicator.

(** ** Reading the log of calls *)

Definition is_copy (ev : api_event) : bool :=
  match call ev with
  | CopyObject _ => true
  | _ => false
  end.

Definition is_listing (ev : api_event) : bool :=
  match call ev with
  | ListObjectsV2 _ => true
  | _ => false
  end.

Definition has_error (ev : api_event) : bool :=
  match error ev with
  | Some _ => true
  | None => false
  end.

(** The copy attempts of a log, in order. *)
Definition copy_attempts (evs : list api_event) : list api_event :=
  filter is_copy evs.

Definition failed_attempts (evs : list api_event) : list api_event :=
  filter (fun ev => is_copy ev && has_error ev) evs.

Definition succeeded_attempts (evs : list api_event) : list api_event :=
  filter (fun ev => is_copy ev && negb (has_error ev)) evs.

Definition listings (evs : list api_event) : list api_event :=
  filter is_listing evs.

(** The buckets a log shows as validated: [head_bucket] came back
    without an error. *)
Definition validated (evs : list api_event) : list value :=
  flat_map (fun ev =>
              match call ev, error ev with
              | HeadBucket b, None => [b]
              | _, _ => []
              end) evs.

(** A copy request writes the key it reads. *)
Definition key_preserved (ev : api_event) : Prop :=
  match call ev with
  | CopyObject request => dest_Key request = source_Key (CopySource request)
  | _ => True
  end.

(** The (object, destination) pairs of the dispatcher, outer loop over
    the objects, inner loop over the destinations. *)
Definition pairs (source_bucket : value) (objects : list ObjectRecord)
    (dest_buckets : list value) : list CopyRequest :=
  flat_map (fun obj =>
              map (fun dest_bucket => copy_request source_bucket dest_bucket (Key obj))
                  dest_buckets)
           objects.

(** The calls logged between two states. *)
Definition events_since {World : Type} (st st' : @state World) : list api_event :=
  skipn (List.length (calls st)) (calls st').

Definition is_head (ev : api_event) : bool :=
  match call ev with
  | HeadBucket _ => true
  | _ => false
  end.

(** What one page adds to the listing. *)
Definition contents_of (page : Page) : list ObjectRecord :=
  match Contents page with
  | Some contents => contents
  | None => []
  end.

(** The objects a call of [_list_objects] hands back: none when it raises. *)
Definition listed (o : outcome (list ObjectRecord)) : list ObjectRecord :=
  match o with
  | Return objects => objects
  | Raise _ => []
  end.

Definition is_dict (v : value) : bool :=
  match v with
  | VDict _ => true
  | _ => false
  end.

(** The one-character strings a [for] loop over a [str] goes through. *)
Definition characters (s : string) : list value :=
  map (fun c => VStr (String c EmptyString)) (list_ascii_of_string s).

(** The order of the calls of one mapping: validations, then at most one
    listing, then copies. *)
Definition validate_list_copy (evs : list api_event) : Prop :=
  exists heads lists copies,
    evs = heads ++ lists ++ copies /\
    forallb is_head heads = true /\
    forallb is_listing lists = true /\
    List.length lists <= 1 /\
    forallb is_copy copies = true.

(** ** A small S3 service in memory, on which the program runs *)

Module Mock.

Record World : Type := {
  credentials : bool;
  files : list (string * value);
  buckets : list (string * list ObjectRecord);
  forbidden : list string;
  unlistable : list string;
  unreachable : list string;
  read_only : list string
}.

Definition mem (name : string) (names : list string) : bool :=
  existsb (String.eqb name) names.

Fixpoint find {A : Type} (name : string) (l : list (string * A)) : option A :=
  match l with
  | [] => None
  | (n, a) :: rest => if String.eqb n name then Some a else find name rest
  end.

Fixpoint find_object (key : string) (objects : list ObjectRecord) : option ObjectRecord :=
  match objects with
  | [] => None
  | obj :: rest => if String.eqb (Key obj) key then Some obj else find_object key rest
  end.

(** Writing an object replaces the one stored under the same key. *)
Definition put_object (obj : ObjectRecord) (objects : list ObjectRecord) : list ObjectRecord :=
  filter (fun o => negb (String.eqb (Key o) (Key obj))) objects ++ [obj].

Fixpoint put (name : string) (obj : ObjectRecord) (bs : list (string * list ObjectRecord))
    : list (string * list ObjectRecord) :=
  match bs with
  | [] => []
  | (n, objects) :: rest =>
      if String.eqb n name then (n, put_object obj objects) :: rest
      else (n, objects) :: put name obj rest
  end.

Definition with_buckets (w : World) (bs : list (string * list ObjectRecord)) : World :=
  {| credentials := credentials w;
     files := files w;
     buckets := bs;
     forbidden := forbidden w;
     unlistable := unlistable w;
     unreachable := unreachable w;
     read_only := read_only w |}.

(** Listings come in pages of two objects. *)
Fixpoint pages_of (objects : list ObjectRecord) : list Page :=
  match objects with
  | [] => []
  | [a] => [{| Contents := Some [a] |}]
  | a :: b :: rest => {| Contents := Some [a; b] |} :: pages_of rest
  end.

Definition head (b : value) (w : World) : World * result unit :=
  match b with
  | VStr name =>
      if mem name (forbidden w) then (w, Error (ClientError "403"))
      else
        match find name (buckets w) with
        | Some _ => (w, Ok tt)
        | None => (w, Error (ClientError "404"))
        end
  | _ => (w, Error (OtherException "ParamValidationError"))
  end.

Definition list_pages (b : value) (w : World) : World * (list Page * option exception) :=
  match b with
  | VStr name =>
      if mem name (unreachable w)
      then (w, ([], Some (OtherException "EndpointConnectionError")))
      else if mem name (unlistable w)
      then (w, ([], Some (ClientError "AccessDenied")))
      else
        match find name (buckets w) with
        | Some [] => (w, ([{| Contents := None |}], None))
        | Some objects => (w, (pages_of objects, None))
        | None => (w, ([], Some (ClientError "NoSuchBucket")))
        end
  | _ => (w, ([], Some (OtherException "ParamValidationError")))
  end.

Definition copy (request : CopyRequest) (w : World) : World * result unit :=
  match source_Bucket (CopySource request), dest_Bucket request with
  | VStr src, VStr dst =>
      match find src (buckets w), find dst (buckets w) with
      | Some objects, Some _ =>
          match find_object (source_Key (CopySource request)) objects with
          | Some obj =>
              if mem dst (read_only w) then (w, Error (ClientError "AccessDenied"))
              else
                let written :=
                  {| Key := dest_Key request; Size := Size obj; ETag := ETag obj |} in
                (with_buckets w (put dst written (buckets w)), Ok tt)
          | None => (w, Error (ClientError "NoSuchKey"))
          end
      | _, _ => (w, Error (ClientError "NoSuchBucket"))
      end
  | _, _ => (w, Error (OtherException "ParamValidationError"))
  end.

#[global] Instance environment : Environment World := {
  get_credentials w := (w, Ok (if credentials w then Some credentials_found else None));
  boto3_client w := (w, Ok s3);
  path_exists w path := match find path (files w) with Some _ => true | None => false end;
  safe_load path w :=
    match find path (files w) with
    | Some v => (w, Ok v)
    | None => (w, Error (OtherException "FileNotFoundError"))
    end;
  head_bucket := head;
  paginate := list_pages;
  copy_object := copy
}.

Definition object (key : string) : ObjectRecord :=
  {| Key := key; Size := 3; ETag := "d41d8cd9" |}.

Definition mapping (source : string) (destinations : list string) : value :=
  VDict [(VStr "source_bucket", VStr source);
         (VStr "destination_buckets", VList (map VStr destinations))].

Definition plan (mappings : list value) : value :=
  VDict [(VStr "buckets", VList mappings)].

(** Credentials are set, [buckets.yaml] holds the plan [p]; the bucket
    ["src"] holds ["x"] and ["y"]; ["D1"], ["D2"] and ["B"] are empty;
    there is no bucket ["A"]. *)
Definition world_with (p : value) : World :=
  {| credentials := true;
     files := [("buckets.yaml", p)];
     buckets := [("src", [object "x"; object "y"]); ("D1", []); ("D2", []); ("B", [])];
     forbidden := [];
     unlistable := [];
     unreachable := [];
     read_only := [] |}.

(** The same world with no credentials in the environment. *)
Definition no_credentials (p : value) : World :=
  {| credentials := false;
     files := files (world_with p);
     buckets := buckets (world_with p);
     forbidden := [];
     unlistable := [];
     unreachable := [];
     read_only := [] |}.

(** The same world where listing ["src"] is denied by the service. *)
Definition unlistable_source (p : value) : World :=
  {| credentials := true;
     files := files (world_with p);
     buckets := buckets (world_with p);
     forbidden := [];
     unlistable := ["src"];
     unreachable := [];
     read_only := [] |}.

(** The same world where the connection drops while listing ["src"]. *)
Definition unreachable_source (p : value) : World :=
  {| credentials := true;
     files := files (world_with p);
     buckets := buckets (world_with p);
     forbidden := [];
     unlistable := [];
     unreachable := ["src"];
     read_only := [] |}.

(** The same world where ["D2"] refuses writes. *)
Definition read_only_D2 (p : value) : World :=
  {| credentials := true;
     files := files (world_with p);
     buckets := buckets (world_with p);
     forbidden := [];
     unlistable := [];
     unreachable := [];
     read_only := ["D2"] |}.

(** The object once [_initialize_s3_client] has run. *)
Definition ready (w : World) : @state World :=
  {| self := set_s3_client s3 (__init__ "buckets.yaml"); world := w; calls := [] |}.

(** A mapping whose source is a number: [head_bucket] rejects it with an
    exception that is not a [ClientError]. *)
Definition mistyped_mapping : value :=
  VDict [(VStr "source_bucket", VInt 5);
         (VStr "destination_buckets", VList [VStr "B"])].


(** A state with the client initialised and an empty plan. *)
Definition idle : @state World := ready (world_with (plan [])).

End Mock.

(** ** A service with a flaky network: buckets that cannot be reached,
    and a listing that comes in pages *)

Module Flaky.

Record World : Type := {
  down : list string;
  listing : list Page
}.

Definition head (b : value) (w : World) : World * result unit :=
  match b with
  | VStr name =>
      if Mock.mem name (down w)
      then (w, Error (OtherException "EndpointConnectionError"))
      else (w, Ok tt)
  | _ => (w, Error (OtherException "ParamValidationError"))
  end.

#[global] Instance environment : Environment World := {
  get_credentials w := (w, Ok (Some credentials_found));
  boto3_client w := (w, Ok s3);
  path_exists w path := true;
  safe_load path w := (w, Ok (VDict []));
  head_bucket := head;
  paginate b w := (w, (listing w, None));
  copy_object request w := (w, Ok tt)
}.

(** The bucket ["down"] cannot be reached; listings come in three pages,
    the second one empty. *)
Definition unstable : World :=
  {| down := ["down"];
     listing := [{| Contents := Some [Mock.object "a"; Mock.object "b"] |};
                 {| Contents := None |};
                 {| Contents := Some [Mock.object "c"] |}] |}.

Definition ready : @state World :=
  {| self := set_s3_client s3 (__init__ "buckets.yaml"); world := unstable; calls := [] |}.

End Flaky.

(** ** What a method may do to the state *)

Section Accounting.

Context {World : Type} {env : Environment World}.

#[local] Abbreviation state := (@state World).
#[local] Abbreviation M := (@M World).

(** [st'] comes after [st]: the log grew by [evs], the client handle is
    the same and the counters grew by the attempts of [evs]. *)
Definition extends (st st' : state) (evs : list api_event) : Prop :=
  calls st' = calls st ++ evs /\
  s3_client (self st') = s3_client (self st) /\
  total_files_copied (self st') =
    total_files_copied (self st) + List.length (succeeded_attempts evs) /\
  total_files_failed (self st') =
    total_files_failed (self st) + List.length (failed_attempts evs).

(** Neither counter is lower in [st'] than in [st]. *)
Definition counters_le (st st' : state) : Prop :=
  total_files_copied (self st) <= total_files_copied (self st') /\
  total_files_failed (self st) <= total_files_failed (self st').

(** The log of [st'] is the log of [st] followed by copy requests that
    preserve the key, and by other calls. *)
Definition log_grows (st st' : state) : Prop :=
  exists evs, calls st' = calls st ++ evs /\ Forall key_preserved evs.

(** What every method keeps: counters never fall and the log only grows,
    by well-formed calls. *)
Definition step (st st' : state) : Prop :=
  counters_le st st' /\ log_grows st st'.

(** What the two start-up methods keep: they make no call on the client,
    leave the counters alone and do not lose the client handle. *)
Definition quiet (st st' : state) : Prop :=
  calls st' = calls st /\
  total_files_copied (self st') = total_files_copied (self st) /\
  total_files_failed (self st') = total_files_failed (self st) /\
  (forall cl, s3_client (self st) = Some cl -> s3_client (self st') = Some cl).

(** The configuration of the object is untouched: file name, client
    handle and loaded plan. *)
Definition same_plan (st st' : state) : Prop :=
  config_file (self st') = config_file (self st) /\
  s3_client (self st') = s3_client (self st) /\
  bucket_configs (self st') = bucket_configs (self st).

(** The pairs counted so far, copied or failed. *)
Definition attempted (st : state) : nat :=
  total_files_copied (self st) + total_files_failed (self st).

(** Start-up went through: the client is initialised and the plan loaded. *)
Definition startup_ok (w : World) : Prop :=
  fst (_initialize_s3_client (start w)) = Return tt /\
  fst (_load_config (snd (_initialize_s3_client (start w)))) = Return tt.

(** The state the orchestrator's loop starts from. *)
Definition loaded (w : World) : state :=
  snd (_load_config (snd (_initialize_s3_client (start w)))).

(** A computation that never makes a state a step relation forbids. *)
Definition respects {A : Type} (R : state -> state -> Prop) (m : M A) : Prop :=
  forall st, R st (snd (m st)).

(** A computation that raises instances of [Exception] only. *)
Definition raises_exceptions_only {A : Type} (m : M A) : Prop :=
  forall st e, fst (m st) = Raise e -> exists x, e = Exc x.

(** The validation of a bucket failed: the validator answered [False] or
    raised. *)
Definition validation_failed (o : outcome bool) : bool :=
  match o with
  | Return true => false
  | _ => true
  end.

(** What [_validate_bucket_exists] answers to the outcome of [head_bucket]. *)
Definition validation_outcome (err : option exception) : outcome bool :=
  match err with
  | None => Return true
  | Some (ClientError _) => Return false
  | Some e => Raise (Exc e)
  end.

Definition is_client_error (e : exception) : bool :=
  match e with
  | ClientError _ => true
  | _ => false
  end.

(** What [_list_objects] answers to the outcome of the pagination. *)
Definition listing_outcome (pgs : list Page) (err : option exception)
    : outcome (list ObjectRecord) :=
  match err with
  | None => Return (fold_left extend_with pgs [])
  | Some (ClientError _) => Return []
  | Some e => Raise (Exc e)
  end.

(** *** Step relations *)

Lemma extends_refl (st : state) : extends st st [].
Proof.
  unfold extends. simpl. rewrite app_nil_r, !Nat.add_0_r. auto.
Qed.

Lemma attempts_app (p : api_event -> bool) (evs1 evs2 : list api_event) :
  List.length (filter p (evs1 ++ evs2)) =
  List.length (filter p evs1) + List.length (filter p evs2).
Proof.
  rewrite filter_app, length_app. reflexivity.
Qed.

Lemma extends_trans (st1 st2 st3 : state) (evs1 evs2 : list api_event) :
  extends st1 st2 evs1 -> extends st2 st3 evs2 -> extends st1 st3 (evs1 ++ evs2).
Proof.
  intros (Hc1 & Hk1 & Hs1 & Hf1) (Hc2 & Hk2 & Hs2 & Hf2).
  unfold extends, succeeded_attempts, failed_attempts in *.
  rewrite !attempts_app. repeat split.
  - rewrite Hc2, Hc1, app_assoc. reflexivity.
  - congruence.
  - lia.
  - lia.
Qed.

Lemma extends_events_since (st st' : state) (evs : list api_event) :
  extends st st' evs -> events_since st st' = evs.
Proof.
  intros (Hc & _). unfold events_since. rewrite Hc.
  rewrite skipn_app, skipn_all, Nat.sub_diag. reflexivity.
Qed.

Lemma extends_record_call (st : state) (w : World) (ev : api_event) :
  is_copy ev = false -> extends st (record_call st w ev) [ev].
Proof.
  intros Hev. unfold extends, succeeded_attempts, failed_attempts. simpl.
  rewrite Hev. simpl. rewrite !Nat.add_0_r. auto.
Qed.

(** *** The calls on the client, once it is initialised *)

Lemma s3_call_run {A : Type} (c : api_call) (f : World -> World * A)
    (pgs : A -> list Page) (err : A -> option exception) (st : state) (cl : S3Client) :
  s3_client (self st) = Some cl ->
  s3_call c f pgs err st =
  (Return (snd (f (world st))),
   record_call st (fst (f (world st)))
     {| call := c; pages := pgs (snd (f (world st))); error := err (snd (f (world st))) |}).
Proof.
  intros Hc. unfold s3_call. rewrite Hc.
  destruct (f (world st)) as [w r]. reflexivity.
Qed.

Lemma _validate_bucket_exists_run (bucket_name : value) (st : state) (cl : S3Client) :
  s3_client (self st) = Some cl ->
  exists ev,
    call ev = HeadBucket bucket_name /\
    extends st (snd (_validate_bucket_exists bucket_name st)) [ev] /\
    fst (_validate_bucket_exists bucket_name st) = validation_outcome (error ev).
Proof.
  intros Hc. unfold _validate_bucket_exists, try_except, bind.
  rewrite (s3_call_run _ _ _ _ _ _ Hc).
  destruct (head_bucket bucket_name (world st)) as [w [[]|e]]; simpl.
  - eexists. split; [|split; [apply extends_record_call|]]; reflexivity.
  - destruct e; simpl;
      (eexists; split; [|split; [apply extends_record_call|]]; reflexivity).
Qed.

Lemma _list_objects_run (bucket_name : value) (st : state) (cl : S3Client) :
  s3_client (self st) = Some cl ->
  exists ev,
    call ev = ListObjectsV2 bucket_name /\
    extends st (snd (_list_objects bucket_name st)) [ev] /\
    fst (_list_objects bucket_name st) = listing_outcome (pages ev) (error ev).
Proof.
  intros Hc. unfold _list_objects, try_except, bind.
  rewrite (s3_call_run _ _ _ _ _ _ Hc).
  destruct (paginate bucket_name (world st)) as [w [pgs [e|]]]; simpl.
  - destruct e; simpl;
      (eexists; split; [|split; [apply extends_record_call|]]; reflexivity).
  - eexists. split; [|split; [apply extends_record_call|]]; reflexivity.
Qed.

Lemma _copy_object_run (source_bucket dest_bucket : value) (obj_key : string)
    (st : state) (cl : S3Client) :
  s3_client (self st) = Some cl ->
  exists w ev,
    call ev = CopyObject (copy_request source_bucket dest_bucket obj_key) /\
    _copy_object source_bucket dest_bucket obj_key st =
      (Return (negb (has_error ev)), record_call st w ev).
Proof.
  intros Hc. unfold _copy_object, try_except, bind.
  rewrite (s3_call_run _ _ _ _ _ _ Hc).
  destruct (copy_object (copy_request source_bucket dest_bucket obj_key) (world st))
    as [w r]; simpl.
  exists w, {| call := CopyObject (copy_request source_bucket dest_bucket obj_key);
               pages := [];
               error := error_of r |}.
  split; [reflexivity|].
  destruct r as [[]|e]; simpl; [reflexivity | destruct e; reflexivity].
Qed.

(** One pair: one call logged, one counter moved by one. *)
Lemma copy_pair_run (source_bucket : value) (obj_key : string) (dest_bucket : value)
    (st : state) (cl : S3Client) :
  s3_client (self st) = Some cl ->
  exists ev,
    call ev = CopyObject (copy_request source_bucket dest_bucket obj_key) /\
    extends st (snd (copy_pair source_bucket obj_key dest_bucket st)) [ev] /\
    fst (copy_pair source_bucket obj_key dest_bucket st) = Return tt.
Proof.
  intros Hc.
  destruct (_copy_object_run source_bucket dest_bucket obj_key st cl Hc)
    as (w & ev & Hcall & Hrun).
  exists ev. unfold copy_pair, bind. rewrite Hrun.
  unfold extends, succeeded_attempts, failed_attempts, is_copy. simpl.
  rewrite Hcall. destruct (has_error ev); simpl; repeat split; lia.
Qed.

(** *** Loops *)

Lemma for_each_run {A : Type} (body : A -> M unit) (sends : A -> list api_call) :
  (forall x st cl, s3_client (self st) = Some cl ->
     exists evs,
       map call evs = sends x /\
       extends st (snd (body x st)) evs /\
       fst (body x st) = Return tt) ->
  forall l st cl, s3_client (self st) = Some cl ->
    exists evs,
      map call evs = flat_map sends l /\
      extends st (snd (for_each l body st)) evs /\
      fst (for_each l body st) = Return tt.
Proof.
  intros Hbody l. induction l as [|x rest IH]; intros st cl Hc; simpl.
  - exists []. split; [reflexivity|]. split; [apply extends_refl | reflexivity].
  - destruct (Hbody x st cl Hc) as (evs1 & Hsent1 & Hext1 & Hret1).
    unfold bind. destruct (body x st) as [o st1]. simpl in Hext1, Hret1. subst o.
    assert (Hc1 : s3_client (self st1) = Some cl).
    { destruct Hext1 as (_ & Hk & _). congruence. }
    destruct (IH st1 cl Hc1) as (evs2 & Hsent2 & Hext2 & Hret2).
    exists (evs1 ++ evs2). rewrite map_app, Hsent1, Hsent2.
    split; [reflexivity|]. split; [|assumption].
    eapply extends_trans; eassumption.
Qed.

Lemma pairs_calls (source_bucket : value) (objects : list ObjectRecord)
    (dest_buckets : list value) :
  flat_map (fun obj =>
              flat_map (fun dest_bucket =>
                          [CopyObject (copy_request source_bucket dest_bucket (Key obj))])
                       dest_buckets)
           objects =
  map CopyObject (pairs source_bucket objects dest_buckets).
Proof.
  unfold pairs. induction objects as [|obj rest IH]; simpl.
  - reflexivity.
  - rewrite map_app, IH. f_equal.
    clear IH. induction dest_buckets as [|d ds IHd]; simpl; [reflexivity|].
    rewrite IHd. reflexivity.
Qed.

Lemma pairs_length (source_bucket : value) (objects : list ObjectRecord)
    (dest_buckets : list value) :
  List.length (pairs source_bucket objects dest_buckets) =
  List.length objects * List.length dest_buckets.
Proof.
  unfold pairs. induction objects as [|obj rest IH]; simpl.
  - reflexivity.
  - rewrite length_app, length_map, IH. reflexivity.
Qed.

Lemma _copy_objects_to_destinations_run (source_bucket : value)
    (objects : list ObjectRecord) (dest_buckets : list value) (st : state) (cl : S3Client) :
  s3_client (self st) = Some cl ->
  exists evs,
    map call evs = map CopyObject (pairs source_bucket objects dest_buckets) /\
    extends st (snd (_copy_objects_to_destinations source_bucket objects dest_buckets st)) evs /\
    fst (_copy_objects_to_destinations source_bucket objects dest_buckets st) = Return tt.
Proof.
  intros Hc. unfold _copy_objects_to_destinations.
  destruct (Nat.eqb_spec (List.length objects * List.length dest_buckets) 0) as [Hz|Hnz].
  - exists []. split; [|split; [apply extends_refl | reflexivity]].
    rewrite <- pairs_length with (source_bucket := source_bucket) in Hz.
    apply length_zero_iff_nil in Hz. rewrite Hz. reflexivity.
  - rewrite <- pairs_calls.
    apply for_each_run with (cl := cl); [|assumption].
    intros obj st1 cl1 Hc1.
    apply for_each_run with (cl := cl1); [|assumption].
    intros d st2 cl2 Hc2.
    destruct (copy_pair_run source_bucket (Key obj) d st2 cl2 Hc2) as (ev & Hcall & Hext & Hret).
    exists [ev]. simpl. rewrite Hcall. auto.
Qed.

(** *** Validation of the destinations *)

Lemma validated_app (evs1 evs2 : list api_event) :
  validated (evs1 ++ evs2) = validated evs1 ++ validated evs2.
Proof.
  unfold validated. apply flat_map_app.
Qed.

Lemma validation_outcome_true (ev : api_event) (bucket_name : value) :
  call ev = HeadBucket bucket_name ->
  validation_outcome (error ev) = Return true ->
  validated [ev] = [bucket_name].
Proof.
  intros Hcall Hout. unfold validated. simpl. rewrite Hcall.
  destruct (error ev) as [e|]; [|reflexivity].
  destruct e; discriminate.
Qed.

Lemma validation_outcome_false (ev : api_event) (bucket_name : value) :
  call ev = HeadBucket bucket_name ->
  validation_outcome (error ev) = Return false ->
  validated [ev] = [].
Proof.
  intros Hcall Hout. unfold validated. simpl. rewrite Hcall.
  destruct (error ev) as [e|]; [reflexivity | discriminate].
Qed.

(** The loop calls [head_bucket] on the destinations in order and keeps
    those that came back without an error; it stops at the first
    exception that is not a [ClientError]. *)
Lemma validate_destinations_run (dest_buckets : list value) :
  forall (valid_dest_buckets : list value) (st : state) (cl : S3Client),
    s3_client (self st) = Some cl ->
    exists evs,
      extends st (snd (validate_destinations dest_buckets valid_dest_buckets st)) evs /\
      match fst (validate_destinations dest_buckets valid_dest_buckets st) with
      | Return valid =>
          map call evs = map HeadBucket dest_buckets /\
          valid = valid_dest_buckets ++ validated evs
      | Raise e =>
          (exists x, e = Exc x) /\
          exists n, map call evs = map HeadBucket (firstn n dest_buckets)
      end.
Proof.
  induction dest_buckets as [|d rest IH]; intros acc st cl Hc; simpl.
  - exists []. split; [apply extends_refl|]. simpl. rewrite app_nil_r. auto.
  - destruct (_validate_bucket_exists_run d st cl Hc) as (ev & Hcall & Hext & Hout).
    unfold bind. destruct (_validate_bucket_exists d st) as [o st1].
    simpl in Hext, Hout. subst o.
    assert (Hc1 : s3_client (self st1) = Some cl).
    { destruct Hext as (_ & Hk & _). congruence. }
    destruct (validation_outcome (error ev)) as [[|]|e] eqn:Hv.
    + destruct (IH (acc ++ [d]) st1 cl Hc1) as (evs & Hext2 & Hres).
      exists ([ev] ++ evs). split; [eapply extends_trans; eassumption|].
      destruct (fst (validate_destinations rest (acc ++ [d]) st1)) as [valid|e].
      * destruct Hres as [Hcalls Hvalid].
        rewrite map_app, validated_app, (validation_outcome_true ev d Hcall Hv).
        simpl. rewrite Hcall, Hcalls. split; [reflexivity|].
        rewrite Hvalid, <- app_assoc. reflexivity.
      * destruct Hres as [Hexc [n Hcalls]]. split; [assumption|].
        exists (S n). simpl. rewrite Hcall, Hcalls. reflexivity.
    + destruct (IH acc st1 cl Hc1) as (evs & Hext2 & Hres).
      exists ([ev] ++ evs). split; [eapply extends_trans; eassumption|].
      destruct (fst (validate_destinations rest acc st1)) as [valid|e].
      * destruct Hres as [Hcalls Hvalid].
        rewrite map_app, validated_app, (validation_outcome_false ev d Hcall Hv).
        simpl. rewrite Hcall, Hcalls. split; [reflexivity | assumption].
      * destruct Hres as [Hexc [n Hcalls]]. split; [assumption|].
        exists (S n). simpl. rewrite Hcall, Hcalls. reflexivity.
    + exists [ev]. split; [assumption|]. simpl.
      assert (Hexc : exists x, e = Exc x).
      { destruct (error ev) as [x|]; [|discriminate].
        destruct x; inversion Hv; eauto. }
      split; [assumption|]. exists 1. simpl. rewrite Hcall.
      destruct rest; reflexivity.
Qed.

(** *** One mapping *)

Lemma all_str_names (names : list string) : all_str (map VStr names) = Some names.
Proof.
  induction names as [|n rest IH]; simpl; [reflexivity|].
  rewrite IH. reflexivity.
Qed.

Lemma py_join_names (sep : string) (dest_buckets : value) (names : list string) :
  py_iter dest_buckets = Ok (map VStr names) ->
  py_join sep dest_buckets = Ok (String.concat sep names).
Proof.
  intros Hiter. unfold py_join. rewrite Hiter, all_str_names. reflexivity.
Qed.

Lemma py_join_iter (sep : string) (dest_buckets : value) (joined : string) :
  py_join sep dest_buckets = Ok joined -> exists dests, py_iter dest_buckets = Ok dests.
Proof.
  unfold py_join. destruct (py_iter dest_buckets) as [dests|e]; [eauto | discriminate].
Qed.

(** The stages of [_process_bucket_config] once its two lookups and the
    join of the log line have gone through. *)
Lemma _process_bucket_config_steps (config source dest_buckets : value)
    (joined : string) (dests : list value) (st : state) :
  py_getitem config "source_bucket" = Ok source ->
  py_getitem config "destination_buckets" = Ok dest_buckets ->
  py_join ", " dest_buckets = Ok joined ->
  py_iter dest_buckets = Ok dests ->
  _process_bucket_config config st =
    match _validate_bucket_exists source st with
    | (Return true, st1) =>
        match validate_destinations dests [] st1 with
        | (Return (d :: ds), st2) =>
            match _list_objects source st2 with
            | (Return (o :: os), st3) =>
                _copy_objects_to_destinations source (o :: os) (d :: ds) st3
            | (Return [], st3) => (Return tt, st3)
            | (Raise e, st3) => (Raise e, st3)
            end
        | (Return [], st2) => (Return tt, st2)
        | (Raise e, st2) => (Raise e, st2)
        end
    | (Return false, st1) => (Return tt, st1)
    | (Raise e, st1) => (Raise e, st1)
    end.
Proof.
  intros Hsrc Hdst Hjoin Hiter. unfold _process_bucket_config, bind.
  rewrite Hsrc. cbn [lift ret raise]. rewrite Hdst. cbn [lift ret raise].
  rewrite Hjoin. cbn [lift ret raise].
  destruct (_validate_bucket_exists source st) as [[[|]|e] st1];
    cbn [negb ret]; try reflexivity.
  rewrite Hiter. cbn [lift ret raise].
  destruct (validate_destinations dests [] st1) as [[[|d ds]|e] st2]; try reflexivity.
  destruct (_list_objects source st2) as [[[|o os]|e] st3]; reflexivity.
Qed.

(** Whatever the mapping, processing it returns or raises an instance of
    [Exception], and the counters move by the attempts it logged. *)
Lemma _process_bucket_config_run (config : value) (st : state) (cl : S3Client) :
  s3_client (self st) = Some cl ->
  exists evs,
    extends st (snd (_process_bucket_config config st)) evs /\
    (fst (_process_bucket_config config st) = Return tt \/
     exists x, fst (_process_bucket_config config st) = Raise (Exc x)).
Proof.
  intros Hc.
  destruct (py_getitem config "source_bucket") as [source|e1] eqn:Hsrc.
  2:{ exists []. unfold _process_bucket_config, bind. rewrite Hsrc. cbn [lift ret raise fst snd].
      split; [apply extends_refl | eauto]. }
  destruct (py_getitem config "destination_buckets") as [dest_buckets|e2] eqn:Hdst.
  2:{ exists []. unfold _process_bucket_config, bind. rewrite Hsrc. cbn [lift ret raise].
      rewrite Hdst. cbn [lift ret raise fst snd].
      split; [apply extends_refl | eauto]. }
  destruct (py_join ", " dest_buckets) as [joined|e3] eqn:Hjoin.
  2:{ exists []. unfold _process_bucket_config, bind. rewrite Hsrc. cbn [lift ret raise].
      rewrite Hdst. cbn [lift ret raise]. rewrite Hjoin. cbn [lift ret raise fst snd].
      split; [apply extends_refl | eauto]. }
  destruct (py_join_iter _ _ _ Hjoin) as [dests Hiter].
  rewrite (_process_bucket_config_steps _ _ _ _ _ st Hsrc Hdst Hjoin Hiter).
  destruct (_validate_bucket_exists_run source st cl Hc) as (ev1 & Hcall1 & Hext1 & Hout1).
  destruct (_validate_bucket_exists source st) as [o1 st1]. simpl in Hext1, Hout1.
  assert (Hc1 : s3_client (self st1) = Some cl).
  { destruct Hext1 as (_ & Hk & _). congruence. }
  destruct o1 as [[|]|e].
  2:{ exists [ev1]. simpl. auto. }
  2:{ exists [ev1]. simpl. split; [assumption|]. right.
      destruct (error ev1) as [x|]; [|discriminate].
      destruct x; inversion Hout1; eauto. }
  destruct (validate_destinations_run dests [] st1 cl Hc1) as (evs2 & Hext2 & Hres2).
  destruct (validate_destinations dests [] st1) as [o2 st2]. simpl in Hext2, Hres2.
  assert (Hc2 : s3_client (self st2) = Some cl).
  { destruct Hext2 as (_ & Hk & _). congruence. }
  assert (Hext12 : extends st st2 ([ev1] ++ evs2)) by (eapply extends_trans; eassumption).
  destruct o2 as [[|d ds]|e].
  1:{ exists ([ev1] ++ evs2). simpl. auto. }
  2:{ exists ([ev1] ++ evs2). simpl. split; [assumption|]. right.
      destruct Hres2 as [[x Hx] _]. subst e. eauto. }
  destruct (_list_objects_run source st2 cl Hc2) as (ev3 & Hcall3 & Hext3 & Hout3).
  destruct (_list_objects source st2) as [o3 st3]. simpl in Hext3, Hout3.
  assert (Hc3 : s3_client (self st3) = Some cl).
  { destruct Hext3 as (_ & Hk & _). congruence. }
  assert (Hext13 : extends st st3 (([ev1] ++ evs2) ++ [ev3])) by (eapply extends_trans; eassumption).
  destruct o3 as [[|o os]|e].
  1:{ exists (([ev1] ++ evs2) ++ [ev3]). simpl. auto. }
  2:{ exists (([ev1] ++ evs2) ++ [ev3]). simpl. split; [assumption|]. right.
      unfold listing_outcome in Hout3.
      destruct (error ev3) as [x|]; [|discriminate].
      destruct x; inversion Hout3; eauto. }
  destruct (_copy_objects_to_destinations_run source (o :: os) (d :: ds) st3 cl Hc3)
    as (evs4 & Hcalls4 & Hext4 & Hret4).
  exists ((([ev1] ++ evs2) ++ [ev3]) ++ evs4).
  split; [eapply extends_trans; eassumption | auto].
Qed.

(** *** The orchestrator's loop *)

Lemma process_guarded_caught (config : value) (st : state) :
  (fst (_process_bucket_config config st) = Return tt \/
   exists x, fst (_process_bucket_config config st) = Raise (Exc x)) ->
  process_guarded config st = (Return tt, snd (_process_bucket_config config st)).
Proof.
  unfold process_guarded, try_except.
  destruct (_process_bucket_config config st) as [o st1]. simpl.
  intros [Hret | [x Hraise]]; subst o; [|reflexivity].
  reflexivity.
Qed.

Lemma _process_bucket_config_no_client (config : value) (st : state) :
  s3_client (self st) = None ->
  exists x, _process_bucket_config config st = (Raise (Exc x), st).
Proof.
  intros Hc. unfold _process_bucket_config, bind.
  destruct (py_getitem config "source_bucket") as [source|e1]; cbn [lift ret raise]; [|eauto].
  destruct (py_getitem config "destination_buckets") as [dest_buckets|e2];
    cbn [lift ret raise]; [|eauto].
  destruct (py_join ", " dest_buckets) as [joined|e3]; cbn [lift ret raise]; [|eauto].
  unfold _validate_bucket_exists, try_except, bind, s3_call. rewrite Hc. eauto.
Qed.

(** Processing a mapping never ends in [SystemExit] or [KeyboardInterrupt]. *)
Lemma _process_bucket_config_raises_exceptions_only (config : value) :
  raises_exceptions_only (_process_bucket_config config).
Proof.
  intros st e Hraise.
  destruct (s3_client (self st)) as [cl|] eqn:Hc.
  - destruct (_process_bucket_config_run config st cl Hc) as (evs & _ & [Hret | [x Hx]]).
    + rewrite Hret in Hraise. discriminate.
    + rewrite Hx in Hraise. inversion Hraise. eauto.
  - destruct (_process_bucket_config_no_client config st Hc) as [x Hx].
    rewrite Hx in Hraise. inversion Hraise. eauto.
Qed.

Lemma process_guarded_eq (config : value) (st : state) :
  process_guarded config st = (Return tt, snd (_process_bucket_config config st)).
Proof.
  apply process_guarded_caught.
  destruct (fst (_process_bucket_config config st)) as [[]|e] eqn:Hout; [auto|].
  destruct (_process_bucket_config_raises_exceptions_only config st e Hout) as [x ->].
  eauto.
Qed.

Lemma process_all_cons (config : value) (rest : list value) (st : state) :
  process_all (config :: rest) st =
  process_all rest (snd (_process_bucket_config config st)).
Proof.
  unfold process_all. simpl. unfold bind. rewrite process_guarded_eq. reflexivity.
Qed.

Lemma process_all_returns (configs : list value) :
  forall st, fst (process_all configs st) = Return tt.
Proof.
  induction configs as [|config rest IH]; intros st.
  - reflexivity.
  - rewrite process_all_cons. apply IH.
Qed.

Lemma process_all_run (configs : list value) :
  forall (st : state) (cl : S3Client),
    s3_client (self st) = Some cl ->
    exists evs, extends st (snd (process_all configs st)) evs.
Proof.
  induction configs as [|config rest IH]; intros st cl Hc.
  - exists []. apply extends_refl.
  - rewrite process_all_cons.
    destruct (_process_bucket_config_run config st cl Hc) as (evs1 & Hext1 & _).
    assert (Hc1 : s3_client (self (snd (_process_bucket_config config st))) = Some cl).
    { destruct Hext1 as (_ & Hk & _). congruence. }
    destruct (IH _ cl Hc1) as (evs2 & Hext2).
    exists (evs1 ++ evs2). eapply extends_trans; eassumption.
Qed.

(** *** What holds of every method, client or no client *)

Section Preorder.

Variable R : state -> state -> Prop.
Hypothesis R_refl : forall st, R st st.
Hypothesis R_trans : forall st1 st2 st3, R st1 st2 -> R st2 st3 -> R st1 st3.

Lemma respects_ret {A : Type} (a : A) : respects R (ret a).
Proof. intros st. apply R_refl. Qed.

Lemma respects_raise {A : Type} (e : BaseException) : respects R (@raise World A e).
Proof. intros st. apply R_refl. Qed.

Lemma respects_lift {A : Type} (r : result A) : respects R (lift r).
Proof. destruct r; [apply respects_ret | apply respects_raise]. Qed.

Lemma respects_get_self : respects R get_self.
Proof. intros st. apply R_refl. Qed.

Lemma respects_os_path_exists (path : string) : respects R (os_path_exists path).
Proof. intros st. apply R_refl. Qed.

Lemma respects_bind {A B : Type} (m : M A) (k : A -> M B) :
  respects R m -> (forall a, respects R (k a)) -> respects R (bind m k).
Proof.
  intros Hm Hk st. unfold bind. specialize (Hm st).
  destruct (m st) as [[a|e] st1]; simpl in *.
  - eapply R_trans; [exact Hm | apply Hk].
  - exact Hm.
Qed.

Lemma respects_try_except {A : Type} (m : M A) (handler : BaseException -> option (M A)) :
  respects R m ->
  (forall e h, handler e = Some h -> respects R h) ->
  respects R (try_except m handler).
Proof.
  intros Hm Hh st. unfold try_except. specialize (Hm st).
  destruct (m st) as [[a|e] st1]; simpl in *; [exact Hm|].
  destruct (handler e) as [h|] eqn:He; [|exact Hm].
  eapply R_trans; [exact Hm | apply (Hh e h He)].
Qed.

Lemma respects_for_each {A : Type} (l : list A) (body : A -> M unit) :
  (forall x, respects R (body x)) -> respects R (for_each l body).
Proof.
  intros Hbody. induction l as [|x rest IH]; simpl.
  - apply respects_ret.
  - apply respects_bind; [apply Hbody | intros _; exact IH].
Qed.

End Preorder.

Lemma step_refl (st : state) : step st st.
Proof.
  split; [split; lia|]. exists []. rewrite app_nil_r. auto.
Qed.

Lemma step_trans (st1 st2 st3 : state) : step st1 st2 -> step st2 st3 -> step st1 st3.
Proof.
  intros [[Hc1 Hf1] (evs1 & Hl1 & Hk1)] [[Hc2 Hf2] (evs2 & Hl2 & Hk2)].
  split; [split; lia|]. exists (evs1 ++ evs2). split.
  - rewrite Hl2, Hl1, app_assoc. reflexivity.
  - apply Forall_app. auto.
Qed.

Lemma step_env_call {A : Type} (f : World -> World * result A) : respects step (env_call f).
Proof.
  intros st. unfold env_call. destruct (f (world st)) as [w [a|e]]; simpl;
    (split; [split; simpl; lia|]; exists []; simpl; rewrite app_nil_r; auto).
Qed.

Lemma step_s3_call {A : Type} (c : api_call) (f : World -> World * A)
    (pgs : A -> list Page) (err : A -> option exception) :
  (forall request, c = CopyObject request ->
     dest_Key request = source_Key (CopySource request)) ->
  respects step (s3_call c f pgs err).
Proof.
  intros Hkey st. unfold s3_call.
  destruct (s3_client (self st)); [|apply step_refl].
  destruct (f (world st)) as [w r]. simpl.
  split; [split; simpl; lia|]. eexists. split; [reflexivity|].
  constructor; [|constructor]. unfold key_preserved. simpl.
  destruct c; auto.
Qed.

Lemma step_modify_self (f : S3BucketSync -> S3BucketSync) :
  (forall o, total_files_copied o <= total_files_copied (f o) /\
             total_files_failed o <= total_files_failed (f o)) ->
  respects step (modify_self f).
Proof.
  intros Hf st. unfold modify_self. simpl. split.
  - apply Hf.
  - exists []. simpl. rewrite app_nil_r. auto.
Qed.

Ltac step_method :=
  repeat first
    [ apply (respects_ret step step_refl)
    | apply (respects_raise step step_refl)
    | apply (respects_lift step step_refl)
    | apply (respects_get_self step step_refl)
    | apply (respects_os_path_exists step step_refl)
    | apply step_env_call
    | apply step_s3_call; intros ? Heq; inversion Heq; reflexivity
    | apply step_modify_self; intros ?; simpl; lia
    | apply (respects_for_each step step_refl step_trans); intros ?
    | apply (respects_bind step step_trans); [|intros ?]
    | apply (respects_try_except step step_trans);
        [|intros e h He; destruct e as [[]| |]; inversion He; subst h]
    | match goal with
      | |- respects _ (match ?x with _ => _ end) => destruct x
      end ].

Lemma step__initialize_s3_client : respects step _initialize_s3_client.
Proof. unfold _initialize_s3_client, sys_exit. step_method. Qed.

Lemma step__load_config : respects step _load_config.
Proof. unfold _load_config, sys_exit. step_method. Qed.

Lemma step__validate_bucket_exists (bucket_name : value) :
  respects step (_validate_bucket_exists bucket_name).
Proof. unfold _validate_bucket_exists. step_method. Qed.

Lemma step__list_objects (bucket_name : value) : respects step (_list_objects bucket_name).
Proof. unfold _list_objects. step_method. Qed.

Lemma step__copy_object (source_bucket dest_bucket : value) (obj_key : string) :
  respects step (_copy_object source_bucket dest_bucket obj_key).
Proof. unfold _copy_object. step_method. Qed.

Lemma step_copy_pair (source_bucket : value) (obj_key : string) (dest_bucket : value) :
  respects step (copy_pair source_bucket obj_key dest_bucket).
Proof.
  unfold copy_pair.
  apply (respects_bind step step_trans); [apply step__copy_object|].
  intros ?. step_method.
Qed.

Lemma step__copy_objects_to_destinations (source_bucket : value)
    (objects : list ObjectRecord) (dest_buckets : list value) :
  respects step (_copy_objects_to_destinations source_bucket objects dest_buckets).
Proof.
  unfold _copy_objects_to_destinations.
  destruct (Nat.eqb _ 0); [step_method|].
  apply (respects_for_each step step_refl step_trans). intros obj.
  apply (respects_for_each step step_refl step_trans). intros d.
  apply step_copy_pair.
Qed.

Lemma step_validate_destinations (dest_buckets : list value) :
  forall valid_dest_buckets,
    respects step (validate_destinations dest_buckets valid_dest_buckets).
Proof.
  induction dest_buckets as [|d rest IH]; intros acc; simpl.
  - step_method.
  - apply (respects_bind step step_trans); [apply step__validate_bucket_exists|].
    intros [|]; apply IH.
Qed.

Lemma step__process_bucket_config (config : value) :
  respects step (_process_bucket_config config).
Proof.
  unfold _process_bucket_config.
  apply (respects_bind step step_trans); [step_method|]. intros source.
  apply (respects_bind step step_trans); [step_method|]. intros dest_buckets.
  apply (respects_bind step step_trans); [step_method|]. intros _.
  apply (respects_bind step step_trans); [apply step__validate_bucket_exists|].
  intros [|]; simpl; [|step_method].
  apply (respects_bind step step_trans); [step_method|]. intros dests.
  apply (respects_bind step step_trans); [apply step_validate_destinations|].
  intros [|d ds]; [step_method|].
  apply (respects_bind step step_trans); [apply step__list_objects|].
  intros [|o os]; [step_method|].
  apply step__copy_objects_to_destinations.
Qed.

Lemma step_process_all (configs : list value) : respects step (process_all configs).
Proof.
  unfold process_all.
  apply (respects_for_each step step_refl step_trans). intros config.
  unfold process_guarded.
  apply (respects_try_except step step_trans); [apply step__process_bucket_config|].
  intros e h He. destruct e as [x| |]; inversion He. step_method.
Qed.

Lemma step_sync_buckets : respects step sync_buckets.
Proof.
  unfold sync_buckets.
  apply (respects_bind step step_trans); [apply step__initialize_s3_client|]. intros _.
  apply (respects_bind step step_trans); [apply step__load_config|]. intros _.
  apply (respects_bind step step_trans); [step_method|]. intros o.
  apply (respects_bind step step_trans); [step_method|]. intros configs.
  apply (respects_bind step step_trans); [apply step_process_all|]. intros _.
  unfold sys_exit. step_method.
Qed.

(** *** Start-up *)

Lemma quiet_refl (st : state) : quiet st st.
Proof. unfold quiet. auto. Qed.

Lemma quiet_trans (st1 st2 st3 : state) : quiet st1 st2 -> quiet st2 st3 -> quiet st1 st3.
Proof.
  intros (Hl1 & Hc1 & Hf1 & Hk1) (Hl2 & Hc2 & Hf2 & Hk2).
  unfold quiet. repeat split; try congruence. auto.
Qed.

Lemma quiet_env_call {A : Type} (f : World -> World * result A) : respects quiet (env_call f).
Proof.
  intros st. unfold env_call. destruct (f (world st)) as [w [a|e]]; simpl;
    unfold quiet; simpl; auto.
Qed.

Lemma quiet_modify_self (f : S3BucketSync -> S3BucketSync) :
  (forall o, total_files_copied (f o) = total_files_copied o /\
             total_files_failed (f o) = total_files_failed o /\
             forall cl, s3_client o = Some cl -> s3_client (f o) = Some cl) ->
  respects quiet (modify_self f).
Proof.
  intros Hf st. unfold modify_self, quiet. simpl.
  destruct (Hf (self st)) as (Hc & Hfl & Hk). auto.
Qed.

Lemma quiet_set_s3_client (c : S3Client) : respects quiet (modify_self (set_s3_client c)).
Proof.
  apply quiet_modify_self. intros o. simpl. repeat split.
  intros cl _. destruct c, cl. reflexivity.
Qed.

Lemma quiet_set_bucket_configs (v : value) :
  respects quiet (modify_self (set_bucket_configs v)).
Proof.
  apply quiet_modify_self. intros o. simpl. auto.
Qed.

Ltac quiet_method :=
  repeat first
    [ apply (respects_ret quiet quiet_refl)
    | apply (respects_raise quiet quiet_refl)
    | apply (respects_lift quiet quiet_refl)
    | apply (respects_get_self quiet quiet_refl)
    | apply (respects_os_path_exists quiet quiet_refl)
    | apply quiet_env_call
    | apply quiet_set_s3_client
    | apply quiet_set_bucket_configs
    | apply (respects_bind quiet quiet_trans); [|intros ?]
    | apply (respects_try_except quiet quiet_trans);
        [|intros e h He; destruct e as [[]| |]; inversion He; subst h]
    | match goal with
      | |- respects _ (match ?x with _ => _ end) => destruct x
      end ].

Lemma quiet__initialize_s3_client : respects quiet _initialize_s3_client.
Proof. unfold _initialize_s3_client, sys_exit. quiet_method. Qed.

Lemma quiet__load_config : respects quiet _load_config.
Proof. unfold _load_config, sys_exit. quiet_method. Qed.

Lemma _initialize_s3_client_outcome (st : state) :
  (fst (_initialize_s3_client st) = Return tt /\
   s3_client (self (snd (_initialize_s3_client st))) = Some s3) \/
  fst (_initialize_s3_client st) = Raise (SystemExit 1).
Proof.
  unfold _initialize_s3_client, try_except, bind, env_call, sys_exit.
  destruct (get_credentials (world st)) as [w [[c|]|e]]; simpl.
  - destruct (boto3_client w) as [w' [[]|e]]; simpl.
    + left. auto.
    + right. destruct e; reflexivity.
  - right. reflexivity.
  - right. destruct e; reflexivity.
Qed.

Lemma py_len_iter (v : value) (n : nat) :
  py_len v = Ok n -> exists items, py_iter v = Ok items.
Proof.
  destruct v; simpl; intros H; try discriminate; eauto.
Qed.

Lemma _load_config_outcome (st : state) :
  (fst (_load_config st) = Return tt /\
   exists configs, py_iter (bucket_configs (self (snd (_load_config st)))) = Ok configs) \/
  fst (_load_config st) = Raise (SystemExit 1).
Proof.
  unfold _load_config, try_except, bind, get_self, os_path_exists, env_call, sys_exit.
  destruct (path_exists (world st) (config_file (self st))); simpl; [|auto].
  destruct (safe_load (config_file (self st)) (world st)) as [w [config|e]]; simpl.
  2:{ right. destruct e; reflexivity. }
  destruct (py_contains "buckets" config) as [[|]|e]; simpl.
  2:{ auto. }
  2:{ right. destruct e; reflexivity. }
  destruct (py_getitem config "buckets") as [buckets|e]; simpl.
  2:{ right. destruct e; reflexivity. }
  destruct (py_len buckets) as [n|e] eqn:Hlen; simpl.
  2:{ right. destruct e; reflexivity. }
  left. split; [reflexivity|]. eapply py_len_iter. eassumption.
Qed.

(** [sync_buckets] past start-up: the loop over the plan, then the exit
    decision on the failed counter. *)
Lemma sync_buckets_loaded (w : World) (configs : list value) :
  startup_ok w ->
  py_iter (bucket_configs (self (loaded w))) = Ok configs ->
  main w =
    (if Nat.ltb 0 (total_files_failed (self (snd (process_all configs (loaded w)))))
     then Raise (SystemExit 1)
     else Return tt,
     snd (process_all configs (loaded w))).
Proof.
  intros [Hinit Hload] Hiter. unfold loaded in *.
  unfold main, try_except, sync_buckets, bind.
  destruct (_initialize_s3_client (start w)) as [o1 st1]. simpl in *. subst o1.
  destruct (_load_config st1) as [o2 st2]. simpl in *. subst o2.
  rewrite Hiter. cbn [lift ret].
  pose proof (process_all_returns configs st2) as Hret.
  unfold process_all in *. destruct (for_each configs process_guarded st2) as [o3 st3].
  simpl in *. subst o3.
  destruct (Nat.ltb 0 (total_files_failed (self st3))); reflexivity.
Qed.

(** [main] when start-up fails: status 1, no call made, counters at 0. *)
Lemma main_startup_failed (w : World) :
  ~ startup_ok w ->
  fst (main w) = Raise (SystemExit 1) /\ quiet (start w) (snd (main w)).
Proof.
  intros Hnot. unfold startup_ok in Hnot.
  pose proof (quiet__initialize_s3_client (start w)) as Hq1.
  unfold main, try_except, sync_buckets, bind.
  destruct (_initialize_s3_client_outcome (start w)) as [[Hinit _] | Hinit].
  2:{ destruct (_initialize_s3_client (start w)) as [o1 st1]. simpl in *. subst o1.
      simpl. auto. }
  pose proof (quiet__load_config (snd (_initialize_s3_client (start w)))) as Hq2.
  destruct (_load_config_outcome (snd (_initialize_s3_client (start w)))) as [[Hload _] | Hload].
  1:{ exfalso. apply Hnot. auto. }
  destruct (_initialize_s3_client (start w)) as [o1 st1]. simpl in *. subst o1.
  destruct (_load_config st1) as [o2 st2]. simpl in *. subst o2. simpl.
  split; [reflexivity|]. eapply quiet_trans; eassumption.
Qed.

Lemma startup_ok_loaded (w : World) :
  startup_ok w ->
  quiet (start w) (loaded w) /\
  s3_client (self (loaded w)) = Some s3 /\
  exists configs, py_iter (bucket_configs (self (loaded w))) = Ok configs.
Proof.
  intros [Hinit Hload]. unfold loaded.
  pose proof (quiet__initialize_s3_client (start w)) as Hq1.
  pose proof (quiet__load_config (snd (_initialize_s3_client (start w)))) as Hq2.
  split; [eapply quiet_trans; eassumption|].
  destruct (_initialize_s3_client_outcome (start w)) as [[_ Hcl] | Hex]; [|congruence].
  split; [apply Hq2; assumption|].
  destruct (_load_config_outcome (snd (_initialize_s3_client (start w))))
    as [[_ Hit] | Hex]; [assumption | congruence].
Qed.

Lemma startup_ok_dec (w : World) : startup_ok w \/ ~ startup_ok w.
Proof.
  unfold startup_ok.
  destruct (fst (_initialize_s3_client (start w))) as [[]|e1]; [|right; intros [H _]; discriminate].
  destruct (fst (_load_config (snd (_initialize_s3_client (start w))))) as [[]|e2];
    [left; auto | right; intros [_ H]; discriminate].
Qed.

(** The same two facts of [sync_buckets] itself, from the state [main]
    starts it in. *)
Lemma sync_buckets_past_startup (w : World) (configs : list value) :
  startup_ok w ->
  py_iter (bucket_configs (self (loaded w))) = Ok configs ->
  sync_buckets (start w) =
    (if Nat.ltb 0 (total_files_failed (self (snd (process_all configs (loaded w)))))
     then Raise (SystemExit 1)
     else Return tt,
     snd (process_all configs (loaded w))).
Proof.
  intros [Hinit Hload] Hiter. unfold loaded in *.
  unfold sync_buckets, bind.
  destruct (_initialize_s3_client (start w)) as [o1 st1]. simpl in *. subst o1.
  destruct (_load_config st1) as [o2 st2]. simpl in *. subst o2.
  rewrite Hiter. cbn [lift ret].
  pose proof (process_all_returns configs st2) as Hret.
  destruct (process_all configs st2) as [o3 st3].
  simpl in *. subst o3.
  destruct (Nat.ltb 0 (total_files_failed (self st3))); reflexivity.
Qed.

Lemma sync_buckets_startup_failed (w : World) :
  ~ startup_ok w ->
  fst (sync_buckets (start w)) = Raise (SystemExit 1) /\
  quiet (start w) (snd (sync_buckets (start w))).
Proof.
  intros Hnot. unfold startup_ok in Hnot.
  pose proof (quiet__initialize_s3_client (start w)) as Hq1.
  unfold sync_buckets, bind.
  destruct (_initialize_s3_client_outcome (start w)) as [[Hinit _] | Hinit].
  2:{ destruct (_initialize_s3_client (start w)) as [o1 st1]. simpl in *. subst o1.
      simpl. auto. }
  pose proof (quiet__load_config (snd (_initialize_s3_client (start w)))) as Hq2.
  destruct (_load_config_outcome (snd (_initialize_s3_client (start w)))) as [[Hload _] | Hload].
  1:{ exfalso. apply Hnot. auto. }
  destruct (_initialize_s3_client (start w)) as [o1 st1]. simpl in *. subst o1.
  destruct (_load_config st1) as [o2 st2]. simpl in *. subst o2. simpl.
  split; [reflexivity|]. eapply quiet_trans; eassumption.
Qed.

(** The loop over a plan in two parts. *)
Lemma process_all_app (first_part second_part : list value) :
  forall st,
    process_all (first_part ++ second_part) st =
    process_all second_part (snd (process_all first_part st)).
Proof.
  induction first_part as [|config rest IH]; intros st.
  - reflexivity.
  - simpl app. rewrite !process_all_cons. apply IH.
Qed.

End Accounting.

(** ** Runs on the in-memory service *)

(** A plan with no mapping: nothing copied, nothing failed, status 0. *)
Example run_of_the_empty_plan :
  let r := main (Mock.world_with (Mock.plan [])) in
  fst r = Return tt /\
  exit_status (fst r) = 0%Z /\
  total_files_copied (self (snd r)) = 0 /\
  total_files_failed (self (snd r)) = 0 /\
  calls (snd r) = [].
Proof. repeat split. Qed.

(** Two mappings, the second with an invalid destination. *)
Example run_of_two_mappings :
  let r := main (Mock.world_with
                   (Mock.plan [Mock.mapping "src" ["D1"; "D2"]; Mock.mapping "src" ["A"; "B"]])) in
  exit_status (fst r) = 0%Z /\
  total_files_copied (self (snd r)) = 6 /\
  total_files_failed (self (snd r)) = 0 /\
  map call (calls (snd r)) =
    [HeadBucket (VStr "src"); HeadBucket (VStr "D1"); HeadBucket (VStr "D2");
     ListObjectsV2 (VStr "src");
     CopyObject (copy_request (VStr "src") (VStr "D1") "x");
     CopyObject (copy_request (VStr "src") (VStr "D2") "x");
     CopyObject (copy_request (VStr "src") (VStr "D1") "y");
     CopyObject (copy_request (VStr "src") (VStr "D2") "y");
     HeadBucket (VStr "src"); HeadBucket (VStr "A"); HeadBucket (VStr "B");
     ListObjectsV2 (VStr "src");
     CopyObject (copy_request (VStr "src") (VStr "B") "x");
     CopyObject (copy_request (VStr "src") (VStr "B") "y")].
Proof. repeat split. Qed.

(** A destination that refuses writes: two copies fail, status 1. *)
Example run_with_failed_copies :
  let r := main (Mock.read_only_D2 (Mock.plan [Mock.mapping "src" ["D1"; "D2"]])) in
  fst r = Raise (SystemExit 1) /\
  total_files_copied (self (snd r)) = 2 /\
  total_files_failed (self (snd r)) = 2.
Proof. repeat split. Qed.

(** A configuration file without the top-level list: status 1 at start-up. *)
Example run_without_plan :
  main (Mock.world_with (VList [])) =
    (Raise (SystemExit 1), Mock.ready (Mock.world_with (VList []))).
Proof. reflexivity. Qed.

(** * The claims of the specification *)

(** ** The copy dispatcher *)

(** C1.  Once the client is initialised, [_copy_objects_to_destinations]
    returns normally after logging exactly one copy call per (object,
    destination) pair and nothing else: the calls are the pairs in nested
    order, outer loop over the objects in listing order, inner loop over
    the destinations in configuration order, [|objects| * |destinations|]
    of them. *)
Theorem dispatcher_attempts_each_pair_once_in_order
    {World : Type} {env : Environment World}
    (source_bucket : value) (objects : list ObjectRecord) (dest_buckets : list value)
    (st : @state World) (cl : S3Client) :
  s3_client (self st) = Some cl ->
  let r := _copy_objects_to_destinations source_bucket objects dest_buckets st in
  fst r = Return tt /\
  calls (snd r) = calls st ++ events_since st (snd r) /\
  map call (events_since st (snd r)) =
    map CopyObject (pairs source_bucket objects dest_buckets) /\
  List.length (events_since st (snd r)) = List.length objects * List.length dest_buckets.
Proof.
  intros Hc r.
  destruct (_copy_objects_to_destinations_run source_bucket objects dest_buckets st cl Hc)
    as (evs & Hcalls & Hext & Hret).
  fold r in Hext, Hret.
  rewrite (extends_events_since _ _ _ Hext).
  split; [assumption|]. split; [apply Hext|]. split; [assumption|].
  rewrite <- (length_map call), Hcalls, length_map. apply pairs_length.
Qed.

(** The pairs of the specification's example, objects ["x"], ["y"] and
    destinations ["D1"], ["D2"]. *)
Example pairs_x_y_D1_D2 :
  pairs (VStr "src") [Mock.object "x"; Mock.object "y"] [VStr "D1"; VStr "D2"] =
  [copy_request (VStr "src") (VStr "D1") "x"; copy_request (VStr "src") (VStr "D2") "x";
   copy_request (VStr "src") (VStr "D1") "y"; copy_request (VStr "src") (VStr "D2") "y"].
Proof. reflexivity. Qed.

Lemma dispatcher_attempts_x_y_D1_D2 :
  s3_client (self Mock.idle) = Some s3 /\
  map call
    (events_since Mock.idle
       (snd (_copy_objects_to_destinations (VStr "src")
               [Mock.object "x"; Mock.object "y"] [VStr "D1"; VStr "D2"] Mock.idle))) =
  [CopyObject (copy_request (VStr "src") (VStr "D1") "x");
   CopyObject (copy_request (VStr "src") (VStr "D2") "x");
   CopyObject (copy_request (VStr "src") (VStr "D1") "y");
   CopyObject (copy_request (VStr "src") (VStr "D2") "y")].
Proof.
  split; [reflexivity|].
  apply (dispatcher_attempts_each_pair_once_in_order (VStr "src")
           [Mock.object "x"; Mock.object "y"] [VStr "D1"; VStr "D2"] Mock.idle s3).
  reflexivity.
Defined.

(** ** Counters and exit status *)

Lemma attempts_split (evs : list api_event) :
  List.length (copy_attempts evs) =
  List.length (succeeded_attempts evs) + List.length (failed_attempts evs).
Proof.
  unfold copy_attempts, succeeded_attempts, failed_attempts.
  induction evs as [|ev rest IH]; simpl; [reflexivity|].
  destruct (is_copy ev), (has_error ev); simpl; lia.
Qed.

(** C2, as the specification states it, fails on a run that never gets
    past start-up: with no credentials in the environment no copy is
    attempted, so none fails, and the process still exits with status 1. *)
Lemma exit_status_one_without_failed_copy :
  ~ (failed_attempts (calls (snd (main (Mock.no_credentials (Mock.plan []))))) = [] ->
     exit_status (fst (main (Mock.no_credentials (Mock.plan [])))) = 0%Z).
Proof.
  intros H. specialize (H eq_refl). vm_compute in H. discriminate H.
Qed.

(** C2, amended.  In every run that no user interrupt cuts short, the
    failed counter is the number of failed copy attempts and the copied
    counter is the number of attempts minus the failures; if at least one
    attempt failed the process exits with status 1; if none failed and
    start-up went through (client initialised, plan loaded) it exits with
    status 0; if start-up did not go through, no copy is attempted and it
    exits with status 1. *)
Theorem exit_status_reports_failed_copies
    {World : Type} {env : Environment World} (w : World) :
  let r := main w in
  let attempts := copy_attempts (calls (snd r)) in
  let failures := failed_attempts (calls (snd r)) in
  total_files_failed (self (snd r)) = List.length failures /\
  total_files_copied (self (snd r)) = List.length attempts - List.length failures /\
  (failures <> [] -> exit_status (fst r) = 1%Z) /\
  (startup_ok w -> failures = [] -> exit_status (fst r) = 0%Z) /\
  (~ startup_ok w -> attempts = [] /\ exit_status (fst r) = 1%Z).
Proof.
  cbv zeta. destruct (startup_ok_dec w) as [Hok | Hnot].
  - destruct (startup_ok_loaded w Hok) as (Hq & Hcl & configs & Hiter).
    rewrite (sync_buckets_loaded w configs Hok Hiter). cbn [fst snd].
    destruct (process_all_run configs (loaded w) s3 Hcl)
      as (evs & Hcalls & _ & Hcopied & Hfailed).
    destruct Hq as (Hl & Hc0 & Hf0 & _). simpl in Hl, Hc0, Hf0.
    rewrite Hl in Hcalls. simpl in Hcalls. rewrite Hc0 in Hcopied. rewrite Hf0 in Hfailed.
    rewrite Hcalls, Hcopied, Hfailed, attempts_split. simpl.
    split; [reflexivity|]. split; [lia|].
    destruct (failed_attempts evs) as [|ev rest]; simpl.
    + split; [intros H; contradiction|].
      split; [reflexivity | intros H; contradiction].
    + split; [reflexivity|].
      split; [intros _ H; discriminate | intros H; contradiction].
  - destruct (main_startup_failed w Hnot) as [Hexit (Hl & Hc0 & Hf0 & _)].
    simpl in Hl, Hc0, Hf0. rewrite Hl, Hc0, Hf0, Hexit. simpl.
    split; [reflexivity|]. split; [reflexivity|].
    split; [reflexivity|]. split; [intros H; contradiction | auto].
Qed.

Lemma exit_status_of_two_runs :
  (startup_ok (Mock.world_with (Mock.plan [Mock.mapping "src" ["D1"; "D2"]])) /\
   failed_attempts
     (calls (snd (main (Mock.world_with (Mock.plan [Mock.mapping "src" ["D1"; "D2"]]))))) = [] /\
   exit_status (fst (main (Mock.world_with (Mock.plan [Mock.mapping "src" ["D1"; "D2"]]))))
   = 0%Z) /\
  (failed_attempts
     (calls (snd (main (Mock.read_only_D2 (Mock.plan [Mock.mapping "src" ["D1"; "D2"]])))))
   <> [] /\
   exit_status (fst (main (Mock.read_only_D2 (Mock.plan [Mock.mapping "src" ["D1"; "D2"]]))))
   = 1%Z) /\
  (~ startup_ok (Mock.no_credentials (Mock.plan [])) /\
   exit_status (fst (main (Mock.no_credentials (Mock.plan [])))) = 1%Z).
Proof.
  split; [|split].
  - assert (Hok : startup_ok (Mock.world_with (Mock.plan [Mock.mapping "src" ["D1"; "D2"]])))
      by (split; reflexivity).
    split; [exact Hok|]. split; [reflexivity|].
    pose proof (exit_status_reports_failed_copies
                  (Mock.world_with (Mock.plan [Mock.mapping "src" ["D1"; "D2"]])))
      as (_ & _ & _ & Hzero & _).
    apply Hzero; [exact Hok | reflexivity].
  - assert (Hfail : failed_attempts
        (calls (snd (main (Mock.read_only_D2 (Mock.plan [Mock.mapping "src" ["D1"; "D2"]])))))
        <> []) by (vm_compute; discriminate).
    split; [exact Hfail|].
    pose proof (exit_status_reports_failed_copies
                  (Mock.read_only_D2 (Mock.plan [Mock.mapping "src" ["D1"; "D2"]])))
      as (_ & _ & Hone & _).
    apply Hone. exact Hfail.
  - assert (Hnot : ~ startup_ok (Mock.no_credentials (Mock.plan [])))
      by (intros [H _]; vm_compute in H; discriminate H).
    split; [exact Hnot|].
    pose proof (exit_status_reports_failed_copies (Mock.no_credentials (Mock.plan [])))
      as (_ & _ & _ & _ & Hstart).
    apply (Hstart Hnot).
Defined.

(** ** The orchestrator *)

(** C3.  Whatever processing one mapping raises, it is an instance of
    [Exception]; the orchestrator's handler catches it and the loop goes
    on with the next mapping from the state the failed mapping left.  So
    it is of the run: when a mapping of the loaded plan raises,
    [sync_buckets] still processes every mapping after it and ends on
    its exit decision, by the failed counter alone; the exception never
    is the outcome of the run. *)
Theorem mapping_exception_is_caught
    {World : Type} {env : Environment World} :
  (forall (config : value) (rest : list value) (st : @state World) (e : BaseException),
     fst (_process_bucket_config config st) = Raise e ->
     (exists x, e = Exc x) /\
     process_guarded config st = (Return tt, snd (_process_bucket_config config st)) /\
     process_all (config :: rest) st =
       process_all rest (snd (_process_bucket_config config st)) /\
     fst (process_all (config :: rest) st) = Return tt) /\
  (forall (w : World) (before : list value) (config : value) (after : list value)
          (e : BaseException),
     startup_ok w ->
     py_iter (bucket_configs (self (loaded w))) = Ok (before ++ config :: after) ->
     fst (_process_bucket_config config (snd (process_all before (loaded w)))) = Raise e ->
     let abandoned :=
       snd (_process_bucket_config config (snd (process_all before (loaded w)))) in
     let final := snd (process_all after abandoned) in
     sync_buckets (start w) =
       (if Nat.ltb 0 (total_files_failed (self final))
        then Raise (SystemExit 1)
        else Return tt,
        final) /\
     fst (sync_buckets (start w)) <> Raise e).
Proof.
  split.
  - intros config rest st e Hraise.
    split; [apply (_process_bucket_config_raises_exceptions_only config st e Hraise)|].
    split; [apply process_guarded_eq|].
    split; [apply process_all_cons | apply process_all_returns].
  - intros w before config after e Hok Hiter Hraise abandoned final.
    assert (Hrun : sync_buckets (start w) =
                   (if Nat.ltb 0 (total_files_failed (self final))
                    then Raise (SystemExit 1)
                    else Return tt,
                    final)).
    { rewrite (sync_buckets_past_startup w _ Hok Hiter).
      rewrite process_all_app, process_all_cons. reflexivity. }
    split; [exact Hrun|].
    destruct (_process_bucket_config_raises_exceptions_only _ _ e Hraise) as [x ->].
    rewrite Hrun. simpl.
    destruct (Nat.ltb 0 (total_files_failed (self final))); discriminate.
Qed.

Lemma mistyped_mapping_is_caught :
  (startup_ok (Mock.world_with (Mock.plan [Mock.mistyped_mapping; Mock.mapping "src" ["B"]])) /\
   fst (_process_bucket_config Mock.mistyped_mapping
          (snd (process_all []
                  (loaded (Mock.world_with
                             (Mock.plan [Mock.mistyped_mapping; Mock.mapping "src" ["B"]])))))) =
     Raise (Exc (OtherException "ParamValidationError"))) /\
  fst (sync_buckets
         (start (Mock.world_with
                   (Mock.plan [Mock.mistyped_mapping; Mock.mapping "src" ["B"]])))) <>
    Raise (Exc (OtherException "ParamValidationError")) /\
  sync_buckets
    (start (Mock.world_with (Mock.plan [Mock.mistyped_mapping; Mock.mapping "src" ["B"]]))) =
    (Return tt,
     snd (process_all [Mock.mapping "src" ["B"]]
            (snd (_process_bucket_config Mock.mistyped_mapping
                    (loaded (Mock.world_with
                               (Mock.plan [Mock.mistyped_mapping;
                                           Mock.mapping "src" ["B"]]))))))) /\
  map call
    (calls (snd (sync_buckets
                   (start (Mock.world_with
                             (Mock.plan [Mock.mistyped_mapping; Mock.mapping "src" ["B"]])))))) =
    [HeadBucket (VInt 5);
     HeadBucket (VStr "src"); HeadBucket (VStr "B"); ListObjectsV2 (VStr "src");
     CopyObject (copy_request (VStr "src") (VStr "B") "x");
     CopyObject (copy_request (VStr "src") (VStr "B") "y")].
Proof.
  assert (Hok : startup_ok
                  (Mock.world_with
                     (Mock.plan [Mock.mistyped_mapping; Mock.mapping "src" ["B"]])))
    by (split; reflexivity).
  split; [split; [exact Hok | reflexivity]|].
  pose proof (proj2 mapping_exception_is_caught
                (Mock.world_with (Mock.plan [Mock.mistyped_mapping; Mock.mapping "src" ["B"]]))
                [] Mock.mistyped_mapping [Mock.mapping "src" ["B"]]
                (Exc (OtherException "ParamValidationError"))
                Hok eq_refl eq_refl) as (Hrun & Hnot).
  split; [exact Hnot|]. split; [exact Hrun|].
  rewrite Hrun. reflexivity.
Defined.

(** ** One mapping: validation, listing, dispatch *)

Lemma copy_attempts_app (evs1 evs2 : list api_event) :
  copy_attempts (evs1 ++ evs2) = copy_attempts evs1 ++ copy_attempts evs2.
Proof. apply filter_app. Qed.

Lemma copy_attempts_of_heads (evs : list api_event) :
  forall buckets, map call evs = map HeadBucket buckets -> copy_attempts evs = [].
Proof.
  induction evs as [|ev rest IH]; intros [|b bs] H; simpl in *; try discriminate; auto.
  inversion H as [[Hcall Hrest]]. unfold is_copy. rewrite Hcall. eauto.
Qed.

Lemma listings_of_heads (evs : list api_event) :
  forall buckets, map call evs = map HeadBucket buckets -> listings evs = [].
Proof.
  induction evs as [|ev rest IH]; intros [|b bs] H; simpl in *; try discriminate; auto.
  inversion H as [[Hcall Hrest]]. unfold is_listing. rewrite Hcall. eauto.
Qed.

Lemma copy_attempts_of_copies (evs : list api_event) :
  forall requests, map call evs = map CopyObject requests -> copy_attempts evs = evs.
Proof.
  induction evs as [|ev rest IH]; intros [|r rs] H; simpl in *; try discriminate; auto.
  inversion H as [[Hcall Hrest]]. unfold is_copy. rewrite Hcall.
  f_equal. eauto.
Qed.

Lemma pairs_no_destination (source_bucket : value) (objects : list ObjectRecord) :
  pairs source_bucket objects [] = [].
Proof.
  unfold pairs. induction objects as [|obj rest IH]; simpl; auto.
Qed.

Lemma extends_nothing_counted {World : Type} (st st' : @state World) (evs : list api_event) :
  extends st st' evs ->
  copy_attempts evs = [] ->
  total_files_copied (self st') = total_files_copied (self st) /\
  total_files_failed (self st') = total_files_failed (self st).
Proof.
  intros (_ & _ & Hc & Hf) Hnone.
  pose proof (attempts_split evs) as Hsplit. rewrite Hnone in Hsplit. simpl in Hsplit.
  lia.
Qed.

Lemma _validate_bucket_exists_client {World : Type} {env : Environment World}
    (bucket_name : value) (st : @state World) (valid : bool) :
  fst (_validate_bucket_exists bucket_name st) = Return valid ->
  exists cl, s3_client (self st) = Some cl.
Proof.
  destruct (s3_client (self st)) as [cl|] eqn:Hc; [eauto|].
  unfold _validate_bucket_exists, try_except, bind, s3_call. rewrite Hc.
  simpl. discriminate.
Qed.

(** The calls of a mapping whose source is valid, up to the end of the
    validation of its destinations. *)
Lemma validation_stage {World : Type} {env : Environment World}
    (source : value) (dests valid : list value) (st st1 st2 : @state World) :
  _validate_bucket_exists source st = (Return true, st1) ->
  validate_destinations dests [] st1 = (Return valid, st2) ->
  exists cl ev1 evs2,
    s3_client (self st2) = Some cl /\
    call ev1 = HeadBucket source /\
    map call evs2 = map HeadBucket dests /\
    valid = validated evs2 /\
    extends st st1 [ev1] /\
    extends st1 st2 evs2.
Proof.
  intros Hv1 Hv2.
  destruct (_validate_bucket_exists_client source st true) as [cl Hc];
    [rewrite Hv1; reflexivity|].
  destruct (_validate_bucket_exists_run source st cl Hc) as (ev1 & Hcall1 & Hext1 & _).
  rewrite Hv1 in Hext1. simpl in Hext1.
  assert (Hc1 : s3_client (self st1) = Some cl).
  { destruct Hext1 as (_ & Hk & _). congruence. }
  destruct (validate_destinations_run dests [] st1 cl Hc1) as (evs2 & Hext2 & Hres).
  rewrite Hv2 in Hext2, Hres. simpl in Hext2, Hres. destruct Hres as [Hcalls Hvalid].
  exists cl, ev1, evs2. repeat split; try assumption; try apply Hext1; try apply Hext2.
  destruct Hext2 as (_ & Hk & _). congruence.
Qed.

(** C4, as the specification states it, fails when the validation of one
    destination raises an exception that is not a [ClientError]: the
    bucket ["up"] is valid and ["src"] holds three objects, yet with the
    destinations ["up"] and ["down"], the second one unreachable, nothing
    is copied to ["up"]. *)
Lemma valid_destination_left_without_copy :
  fst (_validate_bucket_exists (VStr "up") Flaky.ready) = Return true /\
  validation_failed (fst (_validate_bucket_exists (VStr "down") Flaky.ready)) = true /\
  fst (_list_objects (VStr "src") Flaky.ready) =
    Return [Mock.object "a"; Mock.object "b"; Mock.object "c"] /\
  copy_attempts
    (calls (snd (_process_bucket_config (Mock.mapping "src" ["up"; "down"]) Flaky.ready)))
    = [] /\
  map call
    (copy_attempts
       (calls (snd (_process_bucket_config (Mock.mapping "src" ["up"; "down"]) Flaky.ready))))
    <> map CopyObject
         (pairs (VStr "src") [Mock.object "a"; Mock.object "b"; Mock.object "c"]
            [VStr "up"]).
Proof.
  split; [reflexivity|]. split; [reflexivity|]. split; [reflexivity|].
  split; [reflexivity|]. vm_compute. discriminate.
Qed.

(** C4, amended.  For a mapping whose source is valid: when the validation
    of every destination answers (valid or invalid), the destinations are
    validated one by one in configuration order, the valid ones are those
    whose [head_bucket] came back without an error, in the same order,
    and the copy attempts of the mapping are exactly the pairs of the
    objects the listing returns (none when the listing fails) with the
    valid destinations: none goes to a destination that was dropped,
    every object goes to every valid one.  When the validation of a
    destination raises, the mapping raises the same and is abandoned:
    nothing is listed and nothing copied, not even to the destinations
    already found valid. *)
Theorem copies_go_to_the_valid_destinations
    {World : Type} {env : Environment World} :
  (forall (config source dest_buckets : value) (names : list string)
          (valid : list value) (st st1 st2 : @state World),
     py_getitem config "source_bucket" = Ok source ->
     py_getitem config "destination_buckets" = Ok dest_buckets ->
     py_iter dest_buckets = Ok (map VStr names) ->
     _validate_bucket_exists source st = (Return true, st1) ->
     validate_destinations (map VStr names) [] st1 = (Return valid, st2) ->
     let r := _process_bucket_config config st in
     let objects := listed (fst (_list_objects source st2)) in
     map call (events_since st1 st2) = map HeadBucket (map VStr names) /\
     valid = validated (events_since st1 st2) /\
     map call (copy_attempts (events_since st (snd r))) =
       map CopyObject (pairs source objects valid) /\
     (forall listing, fst (_list_objects source st2) = Return listing ->
                      fst r = Return tt)) /\
  (forall (config source dest_buckets : value) (names : list string)
          (e : BaseException) (st st1 st2 : @state World),
     py_getitem config "source_bucket" = Ok source ->
     py_getitem config "destination_buckets" = Ok dest_buckets ->
     py_iter dest_buckets = Ok (map VStr names) ->
     _validate_bucket_exists source st = (Return true, st1) ->
     validate_destinations (map VStr names) [] st1 = (Raise e, st2) ->
     _process_bucket_config config st = (Raise e, st2) /\
     listings (events_since st st2) = [] /\
     copy_attempts (events_since st st2) = []).
Proof.
  split.
  - intros config source dest_buckets names valid st st1 st2 Hsrc Hdst Hiter Hv1 Hv2 r objects.
    subst r objects.
    rewrite (_process_bucket_config_steps config source dest_buckets _ _ st
               Hsrc Hdst (py_join_names ", " _ _ Hiter) Hiter).
    rewrite Hv1, Hv2.
    destruct (validation_stage source (map VStr names) valid st st1 st2 Hv1 Hv2)
      as (cl & ev1 & evs2 & Hc2 & Hcall1 & Hcalls2 & Hvalid & Hext1 & Hext2).
    rewrite (extends_events_since _ _ _ Hext2).
    assert (Hext12 : extends st st2 ([ev1] ++ evs2)) by (eapply extends_trans; eassumption).
    assert (Hno12 : copy_attempts ([ev1] ++ evs2) = []).
    { rewrite copy_attempts_app, (copy_attempts_of_heads evs2 _ Hcalls2).
      rewrite (copy_attempts_of_heads [ev1] [source]); [reflexivity|].
      simpl. rewrite Hcall1. reflexivity. }
    split; [assumption|]. split; [assumption|].
    destruct valid as [|d ds].
    { cbn [fst snd]. rewrite (extends_events_since _ _ _ Hext12), Hno12.
      rewrite pairs_no_destination. auto. }
    destruct (_list_objects_run source st2 cl Hc2) as (ev3 & Hcall3 & Hext3 & _).
    destruct (_list_objects source st2) as [o3 st3]. simpl in Hext3.
    assert (Hc3 : s3_client (self st3) = Some cl).
    { destruct Hext3 as (_ & Hk & _). congruence. }
    assert (Hext13 : extends st st3 (([ev1] ++ evs2) ++ [ev3]))
      by (eapply extends_trans; eassumption).
    assert (Hno13 : copy_attempts (([ev1] ++ evs2) ++ [ev3]) = []).
    { rewrite copy_attempts_app, Hno12. simpl. unfold is_copy. rewrite Hcall3.
      reflexivity. }
    destruct o3 as [[|o os]|err]; cbn [fst snd listed].
    + rewrite (extends_events_since _ _ _ Hext13), Hno13. auto.
    + destruct (_copy_objects_to_destinations_run source (o :: os) (d :: ds) st3 cl Hc3)
        as (evs4 & Hcalls4 & Hext4 & Hret4).
      rewrite (extends_events_since _ _ _ (extends_trans _ _ _ _ _ Hext13 Hext4)).
      rewrite copy_attempts_app, Hno13, (copy_attempts_of_copies evs4 _ Hcalls4).
      auto.
    + rewrite (extends_events_since _ _ _ Hext13), Hno13.
      split; [reflexivity | intros listing H; discriminate].
  - intros config source dest_buckets names e st st1 st2 Hsrc Hdst Hiter Hv1 Hv2.
    split.
    { rewrite (_process_bucket_config_steps config source dest_buckets _ _ st
                 Hsrc Hdst (py_join_names ", " _ _ Hiter) Hiter).
      rewrite Hv1, Hv2. reflexivity. }
    destruct (_validate_bucket_exists_client source st true) as [cl Hc];
      [rewrite Hv1; reflexivity|].
    destruct (_validate_bucket_exists_run source st cl Hc) as (ev1 & Hcall1 & Hext1 & _).
    rewrite Hv1 in Hext1. simpl in Hext1.
    assert (Hc1 : s3_client (self st1) = Some cl).
    { destruct Hext1 as (_ & Hk & _). congruence. }
    destruct (validate_destinations_run (map VStr names) [] st1 cl Hc1)
      as (evs2 & Hext2 & Hres).
    rewrite Hv2 in Hext2, Hres. simpl in Hext2, Hres. destruct Hres as [_ [n Hcalls2]].
    rewrite (extends_events_since _ _ _ (extends_trans _ _ _ _ _ Hext1 Hext2)).
    assert (Hheads : map call ([ev1] ++ evs2) =
                     map HeadBucket (source :: firstn n (map VStr names))).
    { simpl. rewrite Hcall1, Hcalls2. reflexivity. }
    split; [apply (listings_of_heads _ _ Hheads) | apply (copy_attempts_of_heads _ _ Hheads)].
Qed.

Lemma copies_skip_A_and_reach_B :
  (_validate_bucket_exists (VStr "A") Mock.idle
     = (Return false, snd (_validate_bucket_exists (VStr "A") Mock.idle)) /\
   _validate_bucket_exists (VStr "B") Mock.idle
     = (Return true, snd (_validate_bucket_exists (VStr "B") Mock.idle)) /\
   map call
     (copy_attempts
        (events_since Mock.idle
           (snd (_process_bucket_config (Mock.mapping "src" ["A"; "B"]) Mock.idle)))) =
   [CopyObject (copy_request (VStr "src") (VStr "B") "x");
    CopyObject (copy_request (VStr "src") (VStr "B") "y")]) /\
  (validate_destinations [VStr "up"; VStr "down"] []
     (snd (_validate_bucket_exists (VStr "src") Flaky.ready)) =
     (Raise (Exc (OtherException "EndpointConnectionError")),
      snd (validate_destinations [VStr "up"; VStr "down"] []
             (snd (_validate_bucket_exists (VStr "src") Flaky.ready)))) /\
   fst (_process_bucket_config (Mock.mapping "src" ["up"; "down"]) Flaky.ready) =
     Raise (Exc (OtherException "EndpointConnectionError"))).
Proof.
  split.
  - split; [reflexivity|]. split; [reflexivity|].
    pose proof (proj1 copies_go_to_the_valid_destinations
                  (Mock.mapping "src" ["A"; "B"]) (VStr "src") (VList [VStr "A"; VStr "B"])
                  ["A"; "B"] [VStr "B"]
                  Mock.idle
                  (snd (_validate_bucket_exists (VStr "src") Mock.idle))
                  (snd (validate_destinations [VStr "A"; VStr "B"] []
                          (snd (_validate_bucket_exists (VStr "src") Mock.idle))))
                  eq_refl eq_refl eq_refl eq_refl eq_refl) as (_ & _ & Hcopies & _).
    exact Hcopies.
  - split; [reflexivity|].
    pose proof (proj2 copies_go_to_the_valid_destinations
                  (Mock.mapping "src" ["up"; "down"]) (VStr "src")
                  (VList [VStr "up"; VStr "down"]) ["up"; "down"]
                  (Exc (OtherException "EndpointConnectionError"))
                  Flaky.ready
                  (snd (_validate_bucket_exists (VStr "src") Flaky.ready))
                  (snd (validate_destinations [VStr "up"; VStr "down"] []
                          (snd (_validate_bucket_exists (VStr "src") Flaky.ready))))
                  eq_refl eq_refl eq_refl eq_refl eq_refl) as (Hrun & _).
    rewrite Hrun. reflexivity.
Defined.

(** C5.  When the validation of the source of a mapping fails, whether
    the validator answers [False] or raises, processing the mapping stops
    there: at most the [head_bucket] on the source is called, nothing is
    listed and nothing copied, the counters are as they were, and the
    orchestrator goes on with the next mapping.  When the validator
    answers [False] the method returns normally. *)
Theorem invalid_source_skips_the_mapping
    {World : Type} {env : Environment World}
    (config source dest_buckets : value) (names : list string) (rest : list value)
    (st : @state World) :
  py_getitem config "source_bucket" = Ok source ->
  py_getitem config "destination_buckets" = Ok dest_buckets ->
  py_iter dest_buckets = Ok (map VStr names) ->
  validation_failed (fst (_validate_bucket_exists source st)) = true ->
  let st1 := snd (_validate_bucket_exists source st) in
  snd (_process_bucket_config config st) = st1 /\
  (fst (_validate_bucket_exists source st) = Return false ->
   fst (_process_bucket_config config st) = Return tt /\
   map call (events_since st st1) = [HeadBucket source]) /\
  listings (events_since st st1) = [] /\
  copy_attempts (events_since st st1) = [] /\
  total_files_copied (self st1) = total_files_copied (self st) /\
  total_files_failed (self st1) = total_files_failed (self st) /\
  process_all (config :: rest) st = process_all rest st1.
Proof.
  intros Hsrc Hdst Hiter Hfail st1.
  assert (Hrun : _process_bucket_config config st =
                 (match fst (_validate_bucket_exists source st) with
                  | Return _ => Return tt
                  | Raise e => Raise e
                  end, st1)).
  { rewrite (_process_bucket_config_steps config source dest_buckets _ _ st
               Hsrc Hdst (py_join_names ", " _ _ Hiter) Hiter).
    subst st1. destruct (_validate_bucket_exists source st) as [[[|]|e] st']; simpl in *;
      [discriminate | reflexivity | reflexivity]. }
  assert (Hquiet : exists evs,
             extends st st1 evs /\
             (evs = [] \/ exists ev, evs = [ev] /\ call ev = HeadBucket source)).
  { destruct (s3_client (self st)) as [cl|] eqn:Hc.
    - destruct (_validate_bucket_exists_run source st cl Hc) as (ev1 & Hcall1 & Hext1 & _).
      exists [ev1]. split; [exact Hext1 | right; eauto].
    - exists []. split; [|left; reflexivity].
      subst st1. unfold _validate_bucket_exists, try_except, bind, s3_call.
      rewrite Hc. simpl. apply extends_refl. }
  destruct Hquiet as (evs & Hext & Hshape).
  rewrite (extends_events_since _ _ _ Hext).
  assert (Hheads : exists buckets, map call evs = map HeadBucket buckets).
  { destruct Hshape as [-> | (ev & -> & Hcall)].
    - exists []. reflexivity.
    - exists [source]. simpl. rewrite Hcall. reflexivity. }
  destruct Hheads as [buckets Hheads].
  destruct (extends_nothing_counted _ _ _ Hext (copy_attempts_of_heads _ _ Hheads))
    as [Hcopied Hfailed].
  split; [rewrite Hrun; reflexivity|].
  split.
  { intros Hfalse. rewrite Hrun, Hfalse. split; [reflexivity|].
    destruct Hshape as [-> | (ev & -> & Hcall)].
    - exfalso. destruct (_validate_bucket_exists_client source st false Hfalse) as [cl Hc].
      destruct (_validate_bucket_exists_run source st cl Hc) as (ev1 & _ & Hext1 & _).
      fold st1 in Hext1.
      pose proof (extends_events_since _ _ _ Hext1) as H1.
      rewrite (extends_events_since _ _ _ Hext) in H1. discriminate.
    - simpl. rewrite Hcall. reflexivity. }
  split; [apply (listings_of_heads _ _ Hheads)|].
  split; [apply (copy_attempts_of_heads _ _ Hheads)|].
  split; [assumption|]. split; [assumption|].
  rewrite process_all_cons, Hrun. reflexivity.
Qed.

Lemma missing_source_skips_the_mapping :
  validation_failed (fst (_validate_bucket_exists (VStr "nosuch") Mock.idle)) = true /\
  fst (_process_bucket_config (Mock.mapping "nosuch" ["B"]) Mock.idle) = Return tt /\
  copy_attempts
    (events_since Mock.idle (snd (_validate_bucket_exists (VStr "nosuch") Mock.idle))) = [] /\
  process_all [Mock.mapping "nosuch" ["B"]; Mock.mapping "src" ["B"]] Mock.idle =
    process_all [Mock.mapping "src" ["B"]]
      (snd (_validate_bucket_exists (VStr "nosuch") Mock.idle)).
Proof.
  split; [reflexivity|].
  pose proof (invalid_source_skips_the_mapping
                (Mock.mapping "nosuch" ["B"]) (VStr "nosuch") (VList [VStr "B"]) ["B"]
                [Mock.mapping "src" ["B"]] Mock.idle
                eq_refl eq_refl eq_refl eq_refl) as (_ & Hret & _ & Hnone & _ & _ & Hnext).
  split; [apply (Hret eq_refl)|]. split; [exact Hnone | exact Hnext].
Defined.

(** C6.  When the source is valid and no destination passes validation,
    processing the mapping returns after the validation calls alone:
    nothing is listed, nothing copied, and both counters are as they
    were. *)
Theorem no_valid_destination_skips_the_mapping
    {World : Type} {env : Environment World}
    (config source dest_buckets : value) (names : list string)
    (st st1 st2 : @state World) :
  py_getitem config "source_bucket" = Ok source ->
  py_getitem config "destination_buckets" = Ok dest_buckets ->
  py_iter dest_buckets = Ok (map VStr names) ->
  _validate_bucket_exists source st = (Return true, st1) ->
  validate_destinations (map VStr names) [] st1 = (Return [], st2) ->
  _process_bucket_config config st = (Return tt, st2) /\
  map call (events_since st st2) = HeadBucket source :: map HeadBucket (map VStr names) /\
  listings (events_since st st2) = [] /\
  copy_attempts (events_since st st2) = [] /\
  total_files_copied (self st2) = total_files_copied (self st) /\
  total_files_failed (self st2) = total_files_failed (self st).
Proof.
  intros Hsrc Hdst Hiter Hv1 Hv2.
  assert (Hrun : _process_bucket_config config st = (Return tt, st2)).
  { rewrite (_process_bucket_config_steps config source dest_buckets _ _ st
               Hsrc Hdst (py_join_names ", " _ _ Hiter) Hiter).
    rewrite Hv1, Hv2. reflexivity. }
  destruct (validation_stage source (map VStr names) [] st st1 st2 Hv1 Hv2)
    as (cl & ev1 & evs2 & Hc2 & Hcall1 & Hcalls2 & Hvalid & Hext1 & Hext2).
  assert (Hext12 : extends st st2 ([ev1] ++ evs2)) by (eapply extends_trans; eassumption).
  rewrite (extends_events_since _ _ _ Hext12).
  assert (Hheads : map call ([ev1] ++ evs2) = map HeadBucket (source :: map VStr names)).
  { simpl. rewrite Hcall1, Hcalls2. reflexivity. }
  split; [assumption|]. split; [assumption|].
  split; [apply (listings_of_heads _ _ Hheads)|].
  split; [apply (copy_attempts_of_heads _ _ Hheads)|].
  apply (extends_nothing_counted _ _ _ Hext12 (copy_attempts_of_heads _ _ Hheads)).
Qed.

Lemma only_invalid_destination_skips_the_mapping :
  validate_destinations [VStr "A"] []
    (snd (_validate_bucket_exists (VStr "src") Mock.idle)) =
    (Return [],
     snd (validate_destinations [VStr "A"] []
            (snd (_validate_bucket_exists (VStr "src") Mock.idle)))) /\
  map call
    (events_since Mock.idle
       (snd (validate_destinations [VStr "A"] []
               (snd (_validate_bucket_exists (VStr "src") Mock.idle))))) =
    [HeadBucket (VStr "src"); HeadBucket (VStr "A")] /\
  total_files_copied
    (self (snd (_process_bucket_config (Mock.mapping "src" ["A"]) Mock.idle))) = 0 /\
  total_files_failed
    (self (snd (_process_bucket_config (Mock.mapping "src" ["A"]) Mock.idle))) = 0.
Proof.
  split; [reflexivity|].
  pose proof (no_valid_destination_skips_the_mapping
                (Mock.mapping "src" ["A"]) (VStr "src") (VList [VStr "A"]) ["A"]
                Mock.idle
                (snd (_validate_bucket_exists (VStr "src") Mock.idle))
                (snd (validate_destinations [VStr "A"] []
                        (snd (_validate_bucket_exists (VStr "src") Mock.idle))))
                eq_refl eq_refl eq_refl eq_refl eq_refl) as (Hrun & Hcalls & _ & _ & Hc & Hf).
  split; [exact Hcalls|]. rewrite Hrun. simpl snd. split; [exact Hc | exact Hf].
Defined.

(** ** Listing failures *)

Lemma _list_objects_failure {World : Type} {env : Environment World}
    (bucket_name : value) (st : @state World) (cl : S3Client) (e : exception) :
  s3_client (self st) = Some cl ->
  snd (snd (paginate bucket_name (world st))) = Some e ->
  fst (_list_objects bucket_name st) =
    if is_client_error e then Return [] else Raise (Exc e).
Proof.
  intros Hc Hfail. unfold _list_objects, try_except, bind.
  rewrite (s3_call_run _ _ _ _ _ _ Hc).
  destruct (paginate bucket_name (world st)) as [w [pgs err]]. simpl in *. subst err.
  destruct e; reflexivity.
Qed.

(** C7, as the specification states it, fails when the listing ends in an
    exception that is not a [ClientError]: a dropped connection makes
    [_list_objects] raise, and the exception leaves
    [_process_bucket_config] for the orchestrator's handler. *)
Lemma dropped_connection_leaves_the_lister :
  snd (snd (paginate (VStr "src")
              (world (Mock.ready (Mock.unreachable_source (Mock.plan []))))))
    = Some (OtherException "EndpointConnectionError") /\
  fst (_list_objects (VStr "src") (Mock.ready (Mock.unreachable_source (Mock.plan []))))
    = Raise (Exc (OtherException "EndpointConnectionError")) /\
  fst (_list_objects (VStr "src") (Mock.ready (Mock.unreachable_source (Mock.plan []))))
    <> Return [] /\
  fst (_process_bucket_config (Mock.mapping "src" ["B"])
         (Mock.ready (Mock.unreachable_source (Mock.plan []))))
    = Raise (Exc (OtherException "EndpointConnectionError")).
Proof.
  split; [reflexivity|]. split; [reflexivity|].
  split; [vm_compute; discriminate | reflexivity].
Qed.

(** C7, amended.  For a mapping that reaches the listing (valid source,
    at least one valid destination): when the listing fails with a
    [ClientError] the lister returns the empty list and processing the
    mapping returns normally; when it fails with another exception the
    lister raises it and it leaves [_process_bucket_config].  Either way
    the mapping makes no copy attempt, the counters are as they were, and
    the orchestrator goes on with the next mapping. *)
Theorem listing_failure_skips_the_mapping
    {World : Type} {env : Environment World}
    (config source dest_buckets : value) (names : list string)
    (d : value) (ds rest : list value) (e : exception) (st st1 st2 : @state World) :
  py_getitem config "source_bucket" = Ok source ->
  py_getitem config "destination_buckets" = Ok dest_buckets ->
  py_iter dest_buckets = Ok (map VStr names) ->
  _validate_bucket_exists source st = (Return true, st1) ->
  validate_destinations (map VStr names) [] st1 = (Return (d :: ds), st2) ->
  snd (snd (paginate source (world st2))) = Some e ->
  let r := _process_bucket_config config st in
  fst (_list_objects source st2) = (if is_client_error e then Return [] else Raise (Exc e)) /\
  fst r = (if is_client_error e then Return tt else Raise (Exc e)) /\
  copy_attempts (events_since st (snd r)) = [] /\
  total_files_copied (self (snd r)) = total_files_copied (self st) /\
  total_files_failed (self (snd r)) = total_files_failed (self st) /\
  process_all (config :: rest) st = process_all rest (snd r).
Proof.
  intros Hsrc Hdst Hiter Hv1 Hv2 Hfail r. subst r.
  destruct (validation_stage source (map VStr names) (d :: ds) st st1 st2 Hv1 Hv2)
    as (cl & ev1 & evs2 & Hc2 & Hcall1 & Hcalls2 & Hvalid & Hext1 & Hext2).
  pose proof (_list_objects_failure source st2 cl e Hc2 Hfail) as Hlist.
  split; [exact Hlist|].
  rewrite process_all_cons.
  rewrite (_process_bucket_config_steps config source dest_buckets _ _ st
             Hsrc Hdst (py_join_names ", " _ _ Hiter) Hiter).
  rewrite Hv1, Hv2.
  destruct (_list_objects_run source st2 cl Hc2) as (ev3 & Hcall3 & Hext3 & _).
  destruct (_list_objects source st2) as [o3 st3]. simpl in Hlist, Hext3. subst o3.
  assert (Hext13 : extends st st3 (([ev1] ++ evs2) ++ [ev3])).
  { eapply extends_trans; [eapply extends_trans|]; eassumption. }
  assert (Hnone : copy_attempts (([ev1] ++ evs2) ++ [ev3]) = []).
  { rewrite !copy_attempts_app, (copy_attempts_of_heads evs2 _ Hcalls2).
    simpl. unfold is_copy. rewrite Hcall1, Hcall3. reflexivity. }
  destruct (extends_nothing_counted _ _ _ Hext13 Hnone) as [Hcopied Hfailed].
  destruct (is_client_error e); cbn [fst snd];
    rewrite (extends_events_since _ _ _ Hext13); auto.
Qed.

Lemma denied_listing_skips_the_mapping :
  snd (snd (paginate (VStr "src")
              (world (snd (validate_destinations [VStr "B"] []
                             (snd (_validate_bucket_exists (VStr "src")
                                     (Mock.ready (Mock.unlistable_source (Mock.plan []))))))))))
    = Some (ClientError "AccessDenied") /\
  fst (_process_bucket_config (Mock.mapping "src" ["B"])
         (Mock.ready (Mock.unlistable_source (Mock.plan [])))) = Return tt /\
  copy_attempts
    (events_since (Mock.ready (Mock.unlistable_source (Mock.plan [])))
       (snd (_process_bucket_config (Mock.mapping "src" ["B"])
               (Mock.ready (Mock.unlistable_source (Mock.plan [])))))) = [].
Proof.
  split; [reflexivity|].
  pose proof (listing_failure_skips_the_mapping
                (Mock.mapping "src" ["B"]) (VStr "src") (VList [VStr "B"]) ["B"]
                (VStr "B") [] [] (ClientError "AccessDenied")
                (Mock.ready (Mock.unlistable_source (Mock.plan [])))
                (snd (_validate_bucket_exists (VStr "src")
                        (Mock.ready (Mock.unlistable_source (Mock.plan [])))))
                (snd (validate_destinations [VStr "B"] []
                        (snd (_validate_bucket_exists (VStr "src")
                                (Mock.ready (Mock.unlistable_source (Mock.plan [])))))))
                eq_refl eq_refl eq_refl eq_refl eq_refl eq_refl) as (_ & Hret & Hnone & _).
  split; [exact Hret | exact Hnone].
Defined.

(** ** The run counters *)

(** [_copy_object] answers [True] or [False], never raises, and leaves
    [self] as it was. *)
Lemma _copy_object_answers {World : Type} {env : Environment World}
    (source_bucket dest_bucket : value) (obj_key : string) (st : @state World) :
  exists copied,
    fst (_copy_object source_bucket dest_bucket obj_key st) = Return copied /\
    self (snd (_copy_object source_bucket dest_bucket obj_key st)) = self st.
Proof.
  unfold _copy_object, try_except, bind, s3_call.
  destruct (s3_client (self st)); simpl; [|eauto].
  destruct (copy_object (copy_request source_bucket dest_bucket obj_key) (world st))
    as [w [[]|e]]; simpl; [eauto|].
  destruct e; simpl; eauto.
Qed.

Section Counting.

Context {World : Type} {env : Environment World}.

Variable R : nat -> @state World -> @state World -> Prop.
Hypothesis R_zero : forall st, R 0 st st.
Hypothesis R_add : forall n m st1 st2 st3, R n st1 st2 -> R m st2 st3 -> R (n + m) st1 st3.

(** A loop whose body always returns and moves the state by [k] moves it
    by [k] for each item. *)
Lemma for_each_counts {A : Type} (body : A -> M unit) (k : nat) :
  (forall x st, fst (body x st) = Return tt /\ R k st (snd (body x st))) ->
  forall l st,
    fst (for_each l body st) = Return tt /\
    R (List.length l * k) st (snd (for_each l body st)).
Proof.
  intros Hbody l. induction l as [|x rest IH]; intros st; simpl.
  - split; [reflexivity | apply R_zero].
  - unfold bind. destruct (Hbody x st) as [Hret Hstep].
    destruct (body x st) as [o st1]. simpl in Hret, Hstep. subst o.
    destruct (IH st1) as [Hret' Hstep'].
    split; [assumption | eapply R_add; eassumption].
Qed.

End Counting.

Lemma copy_pair_counts_one {World : Type} {env : Environment World}
    (source_bucket : value) (obj_key : string) (dest_bucket : value) (st : @state World) :
  fst (copy_pair source_bucket obj_key dest_bucket st) = Return tt /\
  attempted (snd (copy_pair source_bucket obj_key dest_bucket st)) = attempted st + 1 /\
  same_plan st (snd (copy_pair source_bucket obj_key dest_bucket st)).
Proof.
  destruct (_copy_object_answers source_bucket dest_bucket obj_key st)
    as (copied & Hret & Hself).
  unfold copy_pair, bind, attempted, same_plan.
  destruct (_copy_object source_bucket dest_bucket obj_key st) as [o st1].
  simpl in Hret, Hself. subst o.
  destruct copied; simpl; rewrite Hself; repeat split; lia.
Qed.

(** C8.  Each copy attempt moves exactly one counter by exactly one: the
    copied counter when [_copy_object] answers [True], the failed counter
    when it answers [False], and it answers one or the other; with the
    client initialised it answers [True] exactly when [copy_object] came
    back without an exception.  So it is of the dispatcher and of a
    mapping: [_copy_objects_to_destinations] attempts every pair and
    adds to the copied counter the attempts that succeeded and to the
    failed counter those that failed, one each; client or no client, the
    two counters together grow by the number of pairs; and processing a
    mapping moves the counters by the succeeded and the failed attempts
    it logged.  No method of the class, and no run of [main], lowers
    either counter. *)
Theorem counters_only_grow
    {World : Type} {env : Environment World} (st : @state World) :
  (forall source_bucket obj_key dest_bucket,
     let after := self (snd (copy_pair source_bucket obj_key dest_bucket st)) in
     fst (copy_pair source_bucket obj_key dest_bucket st) = Return tt /\
     match fst (_copy_object source_bucket dest_bucket obj_key st) with
     | Return true =>
         total_files_copied after = total_files_copied (self st) + 1 /\
         total_files_failed after = total_files_failed (self st)
     | Return false =>
         total_files_copied after = total_files_copied (self st) /\
         total_files_failed after = total_files_failed (self st) + 1
     | Raise _ => False
     end) /\
  (forall source_bucket obj_key dest_bucket cl,
     s3_client (self st) = Some cl ->
     fst (_copy_object source_bucket dest_bucket obj_key st) =
       Return (is_ok (snd (copy_object (copy_request source_bucket dest_bucket obj_key)
                             (world st))))) /\
  (forall source_bucket objects dest_buckets cl,
     s3_client (self st) = Some cl ->
     let r := _copy_objects_to_destinations source_bucket objects dest_buckets st in
     let attempts := events_since st (snd r) in
     map call attempts = map CopyObject (pairs source_bucket objects dest_buckets) /\
     total_files_copied (self (snd r)) =
       total_files_copied (self st) + List.length (succeeded_attempts attempts) /\
     total_files_failed (self (snd r)) =
       total_files_failed (self st) + List.length (failed_attempts attempts)) /\
  (forall source_bucket objects dest_buckets,
     attempted (snd (_copy_objects_to_destinations source_bucket objects dest_buckets st)) =
     attempted st + List.length objects * List.length dest_buckets) /\
  (forall config cl,
     s3_client (self st) = Some cl ->
     let r := _process_bucket_config config st in
     total_files_copied (self (snd r)) =
       total_files_copied (self st) +
       List.length (succeeded_attempts (events_since st (snd r))) /\
     total_files_failed (self (snd r)) =
       total_files_failed (self st) +
       List.length (failed_attempts (events_since st (snd r)))) /\
  counters_le st (snd (_initialize_s3_client st)) /\
  counters_le st (snd (_load_config st)) /\
  (forall bucket_name, counters_le st (snd (_validate_bucket_exists bucket_name st))) /\
  (forall bucket_name, counters_le st (snd (_list_objects bucket_name st))) /\
  (forall source_bucket dest_bucket obj_key,
     counters_le st (snd (_copy_object source_bucket dest_bucket obj_key st))) /\
  (forall source_bucket objects dest_buckets,
     counters_le st
       (snd (_copy_objects_to_destinations source_bucket objects dest_buckets st))) /\
  (forall config, counters_le st (snd (_process_bucket_config config st))) /\
  (forall configs, counters_le st (snd (process_all configs st))) /\
  counters_le st (snd (sync_buckets st)) /\
  (forall w, counters_le (start w) (snd (main w))).
Proof.
  split.
  { intros source_bucket obj_key dest_bucket after. subst after.
    destruct (_copy_object_answers source_bucket dest_bucket obj_key st)
      as (copied & Hret & Hself).
    unfold copy_pair, bind.
    destruct (_copy_object source_bucket dest_bucket obj_key st) as [o st1].
    simpl in Hret, Hself. subst o. cbn [fst].
    destruct copied; simpl; rewrite Hself; auto. }
  split.
  { intros source_bucket obj_key dest_bucket cl Hc.
    unfold _copy_object, try_except, bind. rewrite (s3_call_run _ _ _ _ _ _ Hc).
    destruct (copy_object (copy_request source_bucket dest_bucket obj_key) (world st))
      as [w [[]|e]]; simpl; [reflexivity|].
    destruct e; reflexivity. }
  split.
  { intros source_bucket objects dest_buckets cl Hc r attempts. subst r attempts.
    destruct (_copy_objects_to_destinations_run source_bucket objects dest_buckets st cl Hc)
      as (evs & Hcalls & Hext & _).
    rewrite (extends_events_since _ _ _ Hext).
    split; [exact Hcalls|]. destruct Hext as (_ & _ & Hcopied & Hfailed). auto. }
  split.
  { intros source_bucket objects dest_buckets.
    unfold _copy_objects_to_destinations.
    destruct (Nat.eqb_spec (List.length objects * List.length dest_buckets) 0) as [Hz|Hnz].
    { simpl. rewrite Hz, Nat.add_0_r. reflexivity. }
    pose (R := fun (n : nat) (st1 st2 : @state World) => attempted st2 = attempted st1 + n).
    assert (R_zero : forall st0, R 0 st0 st0).
    { intros st0. unfold R. rewrite Nat.add_0_r. reflexivity. }
    assert (R_add : forall n m st1 st2 st3, R n st1 st2 -> R m st2 st3 -> R (n + m) st1 st3).
    { unfold R. intros n m st1 st2 st3 H12 H23. lia. }
    destruct (for_each_counts R R_zero R_add
                (fun obj => for_each dest_buckets (copy_pair source_bucket (Key obj)))
                (List.length dest_buckets * 1)) with (l := objects) (st := st)
      as [_ Hcount].
    { intros obj st1.
      apply (for_each_counts R R_zero R_add (copy_pair source_bucket (Key obj)) 1).
      intros d st2. unfold R.
      destruct (copy_pair_counts_one source_bucket (Key obj) d st2) as (Hret & Hone & _).
      auto. }
    unfold R in Hcount. rewrite Hcount, Nat.mul_1_r. reflexivity. }
  split.
  { intros config cl Hc r. subst r.
    destruct (_process_bucket_config_run config st cl Hc) as (evs & Hext & _).
    rewrite (extends_events_since _ _ _ Hext).
    destruct Hext as (_ & _ & Hcopied & Hfailed). auto. }
  split; [apply step__initialize_s3_client|].
  split; [apply step__load_config|].
  split; [intros b; apply step__validate_bucket_exists|].
  split; [intros b; apply step__list_objects|].
  split; [intros s d k; apply step__copy_object|].
  split; [intros s os ds; apply step__copy_objects_to_destinations|].
  split; [intros config; apply step__process_bucket_config|].
  split; [intros configs; apply step_process_all|].
  split; [apply step_sync_buckets|].
  intros w. unfold main, try_except.
  pose proof (step_sync_buckets (start w)) as [Hle _].
  destruct (sync_buckets (start w)) as [[[]|e] st1]; simpl in *; [assumption|].
  destruct e; assumption.
Qed.

Lemma refused_write_counts_as_failed :
  s3_client (self (Mock.ready (Mock.read_only_D2 (Mock.plan [])))) = Some s3 /\
  fst (_copy_object (VStr "src") (VStr "D2") "x"
         (Mock.ready (Mock.read_only_D2 (Mock.plan [])))) = Return false /\
  total_files_failed
    (self (snd (copy_pair (VStr "src") "x" (VStr "D2")
                  (Mock.ready (Mock.read_only_D2 (Mock.plan [])))))) = 1 /\
  total_files_copied
    (self (snd (_copy_objects_to_destinations (VStr "src")
                  [Mock.object "x"; Mock.object "y"] [VStr "D1"; VStr "D2"]
                  (Mock.ready (Mock.read_only_D2 (Mock.plan [])))))) = 2 /\
  total_files_failed
    (self (snd (_copy_objects_to_destinations (VStr "src")
                  [Mock.object "x"; Mock.object "y"] [VStr "D1"; VStr "D2"]
                  (Mock.ready (Mock.read_only_D2 (Mock.plan [])))))) = 2.
Proof.
  pose proof (counters_only_grow (Mock.ready (Mock.read_only_D2 (Mock.plan []))))
    as (Hpair & Hanswer & Hdispatch & _).
  split; [reflexivity|].
  split; [apply (Hanswer (VStr "src") "x" (VStr "D2") s3); reflexivity|].
  split.
  - destruct (Hpair (VStr "src") "x" (VStr "D2")) as [_ Hcount].
    exact (proj2 Hcount).
  - destruct (Hdispatch (VStr "src") [Mock.object "x"; Mock.object "y"]
                [VStr "D1"; VStr "D2"] s3 eq_refl) as (_ & Hcopied & Hfailed).
    split; [exact Hcopied | exact Hfailed].
Defined.

(** ** Keys *)

(** C9.  Every call [_copy_object] logs is a copy request that reads the
    key it was given from the source bucket and writes that same key to
    the destination bucket; and in every run of [main], every copy
    request of the log writes the key it reads. *)
Theorem copy_writes_the_key_it_reads
    {World : Type} {env : Environment World} :
  (forall (source_bucket dest_bucket : value) (obj_key : string)
          (st : @state World) (ev : api_event),
     In ev (events_since st (snd (_copy_object source_bucket dest_bucket obj_key st))) ->
     call ev =
       CopyObject
         {| CopySource := {| source_Bucket := source_bucket; source_Key := obj_key |};
            dest_Bucket := dest_bucket;
            dest_Key := obj_key |}) /\
  (forall w : World, Forall key_preserved (calls (snd (main w)))).
Proof.
  split.
  - intros source_bucket dest_bucket obj_key st ev Hin.
    destruct (s3_client (self st)) as [cl|] eqn:Hc.
    + destruct (_copy_object_run source_bucket dest_bucket obj_key st cl Hc)
        as (w & ev' & Hcall & Hrun).
      rewrite Hrun in Hin. unfold events_since, record_call in Hin. simpl in Hin.
      rewrite skipn_app, skipn_all, Nat.sub_diag in Hin. simpl in Hin.
      destruct Hin as [Heq | []]. subst ev'. exact Hcall.
    + unfold _copy_object, try_except, bind, s3_call in Hin. rewrite Hc in Hin.
      unfold events_since in Hin. simpl in Hin. rewrite skipn_all in Hin.
      destruct Hin.
  - intros w. unfold main, try_except.
    pose proof (step_sync_buckets (start w)) as [_ (evs & Hcalls & Hkeys)].
    simpl in Hcalls.
    destruct (sync_buckets (start w)) as [[[]|e] st1]; simpl in *.
    + rewrite Hcalls. exact Hkeys.
    + destruct e; simpl; rewrite Hcalls; exact Hkeys.
Qed.

Lemma copy_of_x_writes_x :
  In {| call := CopyObject (copy_request (VStr "src") (VStr "B") "x");
        pages := [];
        error := None |}
     (events_since Mock.idle (snd (_copy_object (VStr "src") (VStr "B") "x" Mock.idle))) /\
  call {| call := CopyObject (copy_request (VStr "src") (VStr "B") "x");
          pages := [];
          error := None |} =
  CopyObject
    {| CopySource := {| source_Bucket := VStr "src"; source_Key := "x" |};
       dest_Bucket := VStr "B";
       dest_Key := "x" |}.
Proof.
  assert (Hin : In {| call := CopyObject (copy_request (VStr "src") (VStr "B") "x");
                      pages := [];
                      error := None |}
                   (events_since Mock.idle
                      (snd (_copy_object (VStr "src") (VStr "B") "x" Mock.idle))))
    by (left; reflexivity).
  split; [exact Hin|].
  apply (proj1 copy_writes_the_key_it_reads (VStr "src") (VStr "B") "x" Mock.idle _ Hin).
Defined.

(** ** Plan entries with a missing field *)



(** * More of the program *)

(** ** Start-up *)

(** X1.  [_initialize_s3_client] lets no exception out: it returns with
    the client handle set, or exits with status 1 leaving [self] as it
    was; it returns exactly when credentials are found and the client is
    built; when no credentials are found the client is not built (the
    world is as the credential lookup left it).  It makes no call on the
    S3 service. *)
Theorem initialize_returns_or_exits
    {World : Type} {env : Environment World} (st : @state World) :
  let r := _initialize_s3_client st in
  ((fst r = Return tt /\ s3_client (self (snd r)) = Some s3) \/
   (fst r = Raise (SystemExit 1) /\ self (snd r) = self st)) /\
  calls (snd r) = calls st /\
  (fst r = Return tt <->
   exists c cl,
     snd (get_credentials (world st)) = Ok (Some c) /\
     snd (boto3_client (fst (get_credentials (world st)))) = Ok cl) /\
  (snd (get_credentials (world st)) = Ok None ->
   fst r = Raise (SystemExit 1) /\
   world (snd r) = fst (get_credentials (world st))).
Proof.
  cbv zeta. unfold _initialize_s3_client, try_except, bind, env_call, sys_exit.
  destruct (get_credentials (world st)) as [w [[c|]|e]]; simpl.
  - destruct (boto3_client w) as [w' [[]|e]]; simpl.
    + split; [left; auto|]. split; [reflexivity|].
      split; [|intros H; discriminate].
      split; [intros _; exists c, s3; auto | reflexivity].
    + destruct e; simpl;
        (split; [right; auto|]; split; [reflexivity|];
         split; [|intros H; discriminate];
         split; [intros H; discriminate | intros (c' & cl & _ & H); discriminate]).
  - split; [right; auto|]. split; [reflexivity|].
    split; [|auto].
    split; [intros H; discriminate | intros (c' & cl & H & _); discriminate].
  - destruct e; simpl;
      (split; [right; auto|]; split; [reflexivity|];
       split; [|intros H; discriminate];
       split; [intros H; discriminate | intros (c' & cl & H & _); discriminate]).
Qed.

Lemma initialize_without_credentials_exits :
  snd (get_credentials (world (start (Mock.no_credentials (Mock.plan []))))) = Ok None /\
  fst (_initialize_s3_client (start (Mock.no_credentials (Mock.plan [])))) =
    Raise (SystemExit 1) /\
  world (snd (_initialize_s3_client (start (Mock.no_credentials (Mock.plan []))))) =
    Mock.no_credentials (Mock.plan []).
Proof.
  split; [reflexivity|].
  pose proof (initialize_returns_or_exits (start (Mock.no_credentials (Mock.plan []))))
    as (_ & _ & _ & Hnone).
  apply Hnone. reflexivity.
Defined.

Lemma dict_get_contains (k : string) (entries : list (value * value)) :
  existsb (is_str k) (map fst entries) = true <-> exists v, dict_get k entries = Some v.
Proof.
  induction entries as [|[key v] rest IH]; simpl.
  - split; [discriminate | intros [v H]; discriminate].
  - destruct (is_str k key); simpl; [split; eauto|exact IH].
Qed.

(** The cases in which [_load_config] exits before the plan is set. *)
Ltac load_exits :=
  split; [auto|];
  split; [|split; [intros ? ? H; discriminate | intros H; discriminate]];
  split; [intros H; discriminate | intros [_ (? & ? & ? & H & _)]; discriminate].

(** X2.  [_load_config] returns or exits with status 1, and nothing else.
    It returns exactly when the file exists, parses to a dict that has the
    key ['buckets'], and the value under that key has a length; the plan
    is then that value.  A top-level list or string that merely contains
    ['buckets'] passes the membership test and still exits.  When the
    file does not exist nothing is read and the state is untouched. *)
Theorem load_config_returns_for_a_dict_with_buckets
    {World : Type} {env : Environment World} (st : @state World) :
  let r := _load_config st in
  let loaded_file := snd (safe_load (config_file (self st)) (world st)) in
  (fst r = Return tt \/ fst r = Raise (SystemExit 1)) /\
  (fst r = Return tt <->
   path_exists (world st) (config_file (self st)) = true /\
   exists entries buckets n,
     loaded_file = Ok (VDict entries) /\
     dict_get "buckets" entries = Some buckets /\
     py_len buckets = Ok n) /\
  (forall entries buckets,
     fst r = Return tt ->
     loaded_file = Ok (VDict entries) ->
     dict_get "buckets" entries = Some buckets ->
     bucket_configs (self (snd r)) = buckets) /\
  (path_exists (world st) (config_file (self st)) = false ->
   r = (Raise (SystemExit 1), st)).
Proof.
  cbv zeta.
  unfold _load_config, try_except, bind, get_self, os_path_exists, env_call, sys_exit.
  destruct (path_exists (world st) (config_file (self st))); simpl.
  2:{ split; [auto|]. split; [|split; [intros ? ? H; discriminate | reflexivity]].
      split; [intros H; discriminate | intros [H _]; discriminate]. }
  destruct (safe_load (config_file (self st)) (world st)) as [w [config|e]]; simpl.
  2:{ destruct e; simpl;
        load_exits. }
  destruct config as [| b | z | s | items | entries]; simpl;
    try load_exits.
  - destruct (match index 0 "buckets" s with Some _ => true | None => false end); simpl;
      load_exits.
  - destruct (existsb (is_str "buckets") items); simpl;
      load_exits.
  - destruct (existsb (is_str "buckets") (map fst entries)) eqn:Hin; simpl.
    2:{ split; [auto|]. split; [|split; [intros ? ? H; discriminate | intros H; discriminate]].
        split; [intros H; discriminate|].
        intros [_ (entries' & buckets & n & Hload & Hget & _)].
        inversion Hload; subst entries'.
        assert (Hex : existsb (is_str "buckets") (map fst entries) = true)
          by (apply dict_get_contains; eauto).
        congruence. }
    destruct (dict_get "buckets" entries) as [buckets|] eqn:Hget; simpl.
    2:{ apply dict_get_contains in Hin. destruct Hin as [v Hv]. congruence. }
    destruct (py_len buckets) as [n|e] eqn:Hlen; simpl.
    + split; [auto|]. split; [|split; [|intros H; discriminate]].
      * split; [intros _; split; [reflexivity | eauto 10] | reflexivity].
      * intros entries' buckets' _ Hload Hget'. inversion Hload; subst entries'.
        congruence.
    + destruct e; simpl;
        (split; [auto|]; split; [|split; [intros ? ? H; discriminate | intros H; discriminate]];
         split; [intros H; discriminate|];
         intros [_ (entries' & buckets' & n' & Hload & Hget' & Hlen')];
         inversion Hload; subst entries'; congruence).
Qed.

Lemma load_config_reads_the_plan :
  path_exists (world (Mock.ready (Mock.world_with (Mock.plan [Mock.mapping "src" ["B"]]))))
    "buckets.yaml" = true /\
  fst (_load_config (Mock.ready (Mock.world_with (Mock.plan [Mock.mapping "src" ["B"]])))) =
    Return tt /\
  bucket_configs
    (self (snd (_load_config
                  (Mock.ready (Mock.world_with (Mock.plan [Mock.mapping "src" ["B"]])))))) =
    VList [Mock.mapping "src" ["B"]].
Proof.
  split; [reflexivity|].
  pose proof (load_config_returns_for_a_dict_with_buckets
                (Mock.ready (Mock.world_with (Mock.plan [Mock.mapping "src" ["B"]]))))
    as (_ & Hiff & Hplan & _).
  assert (Hret : fst (_load_config
                        (Mock.ready (Mock.world_with (Mock.plan [Mock.mapping "src" ["B"]]))))
                 = Return tt).
  { apply Hiff. split; [reflexivity|].
    exists [(VStr "buckets", VList [Mock.mapping "src" ["B"]])],
           (VList [Mock.mapping "src" ["B"]]), 1.
    repeat split. }
  split; [exact Hret|].
  apply (Hplan [(VStr "buckets", VList [Mock.mapping "src" ["B"]])]);
    [exact Hret | reflexivity | reflexivity].
Defined.

(** ** Listing *)

Lemma fold_extend_with (pgs : list Page) :
  forall objects,
    fold_left extend_with pgs objects = objects ++ flat_map contents_of pgs.
Proof.
  induction pgs as [|page rest IH]; intros objects; simpl.
  - rewrite app_nil_r. reflexivity.
  - rewrite IH. unfold extend_with, contents_of.
    destruct (Contents page) as [contents|]; [rewrite app_assoc|]; reflexivity.
Qed.

(** X3.  When the pagination runs to its end, [_list_objects] returns the
    contents of all the pages, concatenated in page order; a page with no
    ['Contents'] adds nothing.  It makes one listing call and leaves
    [self] as it was. *)
Theorem listing_concatenates_the_pages
    {World : Type} {env : Environment World}
    (bucket_name : value) (st : @state World) (cl : S3Client) :
  s3_client (self st) = Some cl ->
  snd (snd (paginate bucket_name (world st))) = None ->
  let r := _list_objects bucket_name st in
  fst r = Return (flat_map contents_of (fst (snd (paginate bucket_name (world st))))) /\
  self (snd r) = self st /\
  map call (events_since st (snd r)) = [ListObjectsV2 bucket_name].
Proof.
  intros Hc Hend r. subst r. unfold _list_objects, try_except, bind.
  rewrite (s3_call_run _ _ _ _ _ _ Hc).
  destruct (paginate bucket_name (world st)) as [w [pgs err]]. simpl in *. subst err.
  rewrite fold_extend_with. simpl.
  split; [reflexivity|]. split; [reflexivity|].
  unfold events_since. simpl. rewrite skipn_app, skipn_all, Nat.sub_diag. reflexivity.
Qed.

Lemma listing_of_three_pages :
  s3_client (self Flaky.ready) = Some s3 /\
  fst (_list_objects (VStr "src") Flaky.ready) =
    Return [Mock.object "a"; Mock.object "b"; Mock.object "c"].
Proof.
  split; [reflexivity|].
  exact (proj1 (listing_concatenates_the_pages (VStr "src") Flaky.ready s3
                  eq_refl eq_refl)).
Defined.

(** ** The dispatcher, client or no client *)

(** X4.  Whatever the state, even with no client, the dispatcher returns
    normally and counts every (object, destination) pair exactly once:
    copied plus failed grows by [|objects| * |destinations|].  It leaves
    the file name, the client handle and the plan as they were. *)
Theorem dispatcher_counts_every_pair
    {World : Type} {env : Environment World}
    (source_bucket : value) (objects : list ObjectRecord) (dest_buckets : list value)
    (st : @state World) :
  let r := _copy_objects_to_destinations source_bucket objects dest_buckets st in
  fst r = Return tt /\
  attempted (snd r) = attempted st + List.length objects * List.length dest_buckets /\
  same_plan st (snd r).
Proof.
  cbv zeta. unfold _copy_objects_to_destinations.
  destruct (Nat.eqb_spec (List.length objects * List.length dest_buckets) 0) as [Hz|Hnz].
  - simpl. rewrite Hz, Nat.add_0_r. unfold same_plan. auto.
  - pose (R := fun (n : nat) (st1 st2 : @state World) =>
                 attempted st2 = attempted st1 + n /\ same_plan st1 st2).
    assert (R_zero : forall st0, R 0 st0 st0).
    { intros st0. unfold R, same_plan. rewrite Nat.add_0_r. auto. }
    assert (R_add : forall n m st1 st2 st3, R n st1 st2 -> R m st2 st3 -> R (n + m) st1 st3).
    { unfold R, same_plan. intros n m st1 st2 st3 (Ha & H1 & H2 & H3) (Hb & H4 & H5 & H6).
      repeat split; try congruence. lia. }
    destruct (for_each_counts R R_zero R_add
                (fun obj => for_each dest_buckets (copy_pair source_bucket (Key obj)))
                (List.length dest_buckets * 1)) with (l := objects) (st := st)
      as [Hret [Hcount Hplan]].
    { intros obj st1.
      apply (for_each_counts R R_zero R_add (copy_pair source_bucket (Key obj)) 1).
      intros d st2. unfold R. apply copy_pair_counts_one. }
    split; [exact Hret|]. split; [|exact Hplan].
    rewrite Hcount. rewrite Nat.mul_1_r. reflexivity.
Qed.

Lemma copy_pair_without_client {World : Type} {env : Environment World}
    (source_bucket : value) (obj_key : string) (dest_bucket : value) (st : @state World) :
  s3_client (self st) = None ->
  copy_pair source_bucket obj_key dest_bucket st =
    (Return tt, {| self := incr_failed (self st); world := world st; calls := calls st |}).
Proof.
  intros Hc. unfold copy_pair, _copy_object, try_except, bind, s3_call.
  cbv zeta. rewrite Hc. reflexivity.
Qed.

(** X5.  On an object whose client was never initialised, the validator
    and the lister raise [AttributeError] and touch nothing, whereas
    [_copy_object] swallows it and answers [False]: the dispatcher then
    makes no call at all and counts every pair as failed. *)
Theorem uninitialised_client_fails_every_pair
    {World : Type} {env : Environment World}
    (source_bucket : value) (objects : list ObjectRecord) (dest_buckets : list value)
    (st : @state World) :
  s3_client (self st) = None ->
  let r := _copy_objects_to_destinations source_bucket objects dest_buckets st in
  (forall bucket_name,
     _validate_bucket_exists bucket_name st = (Raise (Exc AttributeError), st)) /\
  (forall bucket_name,
     _list_objects bucket_name st = (Raise (Exc AttributeError), st)) /\
  (forall dest_bucket obj_key,
     _copy_object source_bucket dest_bucket obj_key st = (Return false, st)) /\
  fst r = Return tt /\
  calls (snd r) = calls st /\
  world (snd r) = world st /\
  total_files_copied (self (snd r)) = total_files_copied (self st) /\
  total_files_failed (self (snd r)) =
    total_files_failed (self st) + List.length objects * List.length dest_buckets.
Proof.
  intros Hc r. subst r.
  split.
  { intros b. unfold _validate_bucket_exists, try_except, bind, s3_call.
    rewrite Hc. reflexivity. }
  split.
  { intros b. unfold _list_objects, try_except, bind, s3_call. rewrite Hc. reflexivity. }
  split.
  { intros d k. unfold _copy_object, try_except, bind, s3_call. cbv zeta.
    rewrite Hc. reflexivity. }
  unfold _copy_objects_to_destinations.
  destruct (Nat.eqb_spec (List.length objects * List.length dest_buckets) 0) as [Hz|Hnz].
  { simpl. rewrite Hz, Nat.add_0_r. auto. }
  pose (R := fun (n : nat) (st1 st2 : @state World) =>
               s3_client (self st1) = None ->
               s3_client (self st2) = None /\
               calls st2 = calls st1 /\
               world st2 = world st1 /\
               total_files_copied (self st2) = total_files_copied (self st1) /\
               total_files_failed (self st2) = total_files_failed (self st1) + n).
  assert (R_zero : forall st0, R 0 st0 st0).
  { intros st0 H0. rewrite Nat.add_0_r. auto. }
  assert (R_add : forall n m st1 st2 st3, R n st1 st2 -> R m st2 st3 -> R (n + m) st1 st3).
  { unfold R. intros n m st1 st2 st3 H12 H23 H1.
    destruct (H12 H1) as (Hk & Hl & Hw & Hcp & Hf).
    destruct (H23 Hk) as (Hk' & Hl' & Hw' & Hcp' & Hf').
    repeat split; try congruence. lia. }
  destruct (for_each_counts R R_zero R_add
              (fun obj => for_each dest_buckets (copy_pair source_bucket (Key obj)))
              (List.length dest_buckets * 1)) with (l := objects) (st := st)
    as [Hret Hstep].
  { intros obj st1.
    apply (for_each_counts R R_zero R_add (copy_pair source_bucket (Key obj)) 1).
    intros d st2.
    assert (Hdone : fst (copy_pair source_bucket (Key obj) d st2) = Return tt)
      by apply copy_pair_counts_one.
    split; [exact Hdone|]. intros H2.
    rewrite (copy_pair_without_client _ _ _ _ H2). simpl. auto. }
  destruct (Hstep Hc) as (_ & Hl & Hw & Hcp & Hf).
  rewrite Nat.mul_1_r in Hf. auto.
Qed.

Lemma pairs_fail_before_initialisation :
  s3_client (self (start (Mock.world_with (Mock.plan [])))) = None /\
  calls (snd (_copy_objects_to_destinations (VStr "src")
                [Mock.object "x"; Mock.object "y"] [VStr "D1"; VStr "D2"]
                (start (Mock.world_with (Mock.plan []))))) = [] /\
  total_files_failed
    (self (snd (_copy_objects_to_destinations (VStr "src")
                  [Mock.object "x"; Mock.object "y"] [VStr "D1"; VStr "D2"]
                  (start (Mock.world_with (Mock.plan [])))))) = 4.
Proof.
  split; [reflexivity|].
  pose proof (uninitialised_client_fails_every_pair (VStr "src")
                [Mock.object "x"; Mock.object "y"] [VStr "D1"; VStr "D2"]
                (start (Mock.world_with (Mock.plan []))) eq_refl)
    as (_ & _ & _ & _ & Hcalls & _ & _ & Hfailed).
  split; [exact Hcalls | exact Hfailed].
Defined.

(** ** The calls of one mapping, in order *)

Lemma heads_are_heads (evs : list api_event) :
  forall buckets, map call evs = map HeadBucket buckets -> forallb is_head evs = true.
Proof.
  induction evs as [|ev rest IH]; intros [|b bs] H; simpl in *; try discriminate; auto.
  inversion H as [[Hcall Hrest]]. unfold is_head. rewrite Hcall. simpl. eauto.
Qed.

Lemma copies_are_copies (evs : list api_event) :
  forall requests, map call evs = map CopyObject requests -> forallb is_copy evs = true.
Proof.
  induction evs as [|ev rest IH]; intros [|r rs] H; simpl in *; try discriminate; auto.
  inversion H as [[Hcall Hrest]]. unfold is_copy. rewrite Hcall. simpl. eauto.
Qed.

(** X6.  Take a mapping whose source is valid, in which the validation of
    every destination answers (none raises) and keeps at least one
    destination, and whose listing returns.  It makes its calls in this
    order and no other: [head_bucket] on the source, [head_bucket] on
    every configured destination in order, one listing of the source,
    then one copy per pair of a listed object and a valid destination.
    With an empty listing it stops after the listing.  It returns
    normally and counts every pair once. *)
Theorem mapping_calls_in_order
    {World : Type} {env : Environment World}
    (config source dest_buckets : value) (joined : string) (dests : list value)
    (d : value) (ds : list value) (objects : list ObjectRecord)
    (st st1 st2 st3 : @state World) :
  py_getitem config "source_bucket" = Ok source ->
  py_getitem config "destination_buckets" = Ok dest_buckets ->
  py_join ", " dest_buckets = Ok joined ->
  py_iter dest_buckets = Ok dests ->
  _validate_bucket_exists source st = (Return true, st1) ->
  validate_destinations dests [] st1 = (Return (d :: ds), st2) ->
  _list_objects source st2 = (Return objects, st3) ->
  let r := _process_bucket_config config st in
  fst r = Return tt /\
  map call (events_since st (snd r)) =
    HeadBucket source :: map HeadBucket dests ++
    ListObjectsV2 source :: map CopyObject (pairs source objects (d :: ds)) /\
  attempted (snd r) = attempted st + List.length objects * List.length (d :: ds).
Proof.
  intros Hsrc Hdst Hjoin Hiter Hv1 Hv2 Hl r. subst r.
  rewrite (_process_bucket_config_steps config source dest_buckets _ _ st
             Hsrc Hdst Hjoin Hiter).
  rewrite Hv1, Hv2, Hl.
  destruct (validation_stage source dests (d :: ds) st st1 st2 Hv1 Hv2)
    as (cl & ev1 & evs2 & Hc2 & Hcall1 & Hcalls2 & Hvalid & Hext1 & Hext2).
  destruct (_list_objects_run source st2 cl Hc2) as (ev3 & Hcall3 & Hext3 & _).
  rewrite Hl in Hext3. simpl in Hext3.
  assert (Hc3 : s3_client (self st3) = Some cl).
  { destruct Hext3 as (_ & Hk & _). congruence. }
  assert (Hext13 : extends st st3 (([ev1] ++ evs2) ++ [ev3])).
  { eapply extends_trans; [eapply extends_trans|]; eassumption. }
  assert (Hcalls13 : map call (([ev1] ++ evs2) ++ [ev3]) =
                     HeadBucket source :: map HeadBucket dests ++ [ListObjectsV2 source]).
  { rewrite !map_app. simpl. rewrite Hcall1, Hcalls2, Hcall3. reflexivity. }
  assert (Hnone13 : copy_attempts (([ev1] ++ evs2) ++ [ev3]) = []).
  { rewrite !copy_attempts_app, (copy_attempts_of_heads evs2 _ Hcalls2).
    simpl. unfold is_copy. rewrite Hcall1, Hcall3. reflexivity. }
  destruct objects as [|o os].
  - cbn [fst snd]. rewrite (extends_events_since _ _ _ Hext13), Hcalls13.
    destruct (extends_nothing_counted _ _ _ Hext13 Hnone13) as [Hcopied Hfailed].
    unfold attempted. simpl. split; [reflexivity|]. split; [reflexivity | lia].
  - destruct (_copy_objects_to_destinations_run source (o :: os) (d :: ds) st3 cl Hc3)
      as (evs4 & Hcalls4 & Hext4 & Hret4).
    pose proof (extends_trans _ _ _ _ _ Hext13 Hext4) as Hext.
    rewrite (extends_events_since _ _ _ Hext).
    split; [exact Hret4|]. split.
    + rewrite map_app, Hcalls13, Hcalls4. simpl. rewrite <- app_assoc. reflexivity.
    + destruct Hext as (_ & _ & Hcopied & Hfailed).
      pose proof (attempts_split ((([ev1] ++ evs2) ++ [ev3]) ++ evs4)) as Hsplit.
      rewrite copy_attempts_app, Hnone13 in Hsplit. simpl in Hsplit.
      rewrite (copy_attempts_of_copies evs4 _ Hcalls4) in Hsplit.
      rewrite <- (length_map call), Hcalls4, length_map, pairs_length in Hsplit.
      unfold attempted. simpl in *. lia.
Qed.

Lemma calls_of_a_mapping_with_one_invalid_destination :
  _validate_bucket_exists (VStr "src") Mock.idle =
    (Return true, snd (_validate_bucket_exists (VStr "src") Mock.idle)) /\
  map call
    (events_since Mock.idle
       (snd (_process_bucket_config (Mock.mapping "src" ["A"; "B"]) Mock.idle))) =
  [HeadBucket (VStr "src"); HeadBucket (VStr "A"); HeadBucket (VStr "B");
   ListObjectsV2 (VStr "src");
   CopyObject (copy_request (VStr "src") (VStr "B") "x");
   CopyObject (copy_request (VStr "src") (VStr "B") "y")].
Proof.
  split; [reflexivity|].
  exact (proj1 (proj2
    (mapping_calls_in_order
       (Mock.mapping "src" ["A"; "B"]) (VStr "src") (VList [VStr "A"; VStr "B"])
       "A, B" [VStr "A"; VStr "B"] (VStr "B") [] [Mock.object "x"; Mock.object "y"]
       Mock.idle
       (snd (_validate_bucket_exists (VStr "src") Mock.idle))
       (snd (validate_destinations [VStr "A"; VStr "B"] []
               (snd (_validate_bucket_exists (VStr "src") Mock.idle))))
       (snd (_list_objects (VStr "src")
               (snd (validate_destinations [VStr "A"; VStr "B"] []
                       (snd (_validate_bucket_exists (VStr "src") Mock.idle))))))
       eq_refl eq_refl eq_refl eq_refl eq_refl eq_refl eq_refl))).
Defined.

Lemma validate_list_copy_stages (heads lists copies : list api_event)
    (buckets : list value) (requests : list CopyRequest) :
  map call heads = map HeadBucket buckets ->
  forallb is_listing lists = true ->
  List.length lists <= 1 ->
  map call copies = map CopyObject requests ->
  validate_list_copy (heads ++ lists ++ copies).
Proof.
  intros Hheads Hlists Hone Hcopies. exists heads, lists, copies.
  split; [reflexivity|]. split; [apply (heads_are_heads _ _ Hheads)|].
  split; [assumption|]. split; [assumption | apply (copies_are_copies _ _ Hcopies)].
Qed.

(** X7.  Whatever the mapping and whatever the service answers, the calls
    a mapping makes come in stages that are never re-entered: validations
    first, then at most one listing, then copies.  No bucket is validated
    after the listing and nothing is listed after the first copy. *)
Theorem mapping_stages_are_never_reentered
    {World : Type} {env : Environment World} (config : value) (st : @state World) :
  let r := _process_bucket_config config st in
  calls (snd r) = calls st ++ events_since st (snd r) /\
  validate_list_copy (events_since st (snd r)).
Proof.
  cbv zeta.
  assert (Hnothing : forall o,
             _process_bucket_config config st = (o, st) ->
             calls (snd (_process_bucket_config config st)) =
               calls st ++ events_since st (snd (_process_bucket_config config st)) /\
             validate_list_copy (events_since st (snd (_process_bucket_config config st)))).
  { intros o Hrun. rewrite Hrun. simpl.
    rewrite (extends_events_since _ _ _ (extends_refl st)), app_nil_r.
    split; [reflexivity|].
    apply (validate_list_copy_stages [] [] [] [] []); simpl; auto. }
  assert (Hstages : forall evs,
             extends st (snd (_process_bucket_config config st)) evs ->
             validate_list_copy evs ->
             calls (snd (_process_bucket_config config st)) =
               calls st ++ events_since st (snd (_process_bucket_config config st)) /\
             validate_list_copy (events_since st (snd (_process_bucket_config config st)))).
  { intros evs Hext Hvlc. rewrite (extends_events_since _ _ _ Hext).
    split; [apply Hext | exact Hvlc]. }
  destruct (s3_client (self st)) as [cl|] eqn:Hc.
  2:{ destruct (_process_bucket_config_no_client config st Hc) as [x Hx]. eauto. }
  destruct (py_getitem config "source_bucket") as [source|e1] eqn:Hsrc.
  2:{ apply (Hnothing (Raise (Exc e1))). unfold _process_bucket_config, bind.
      rewrite Hsrc. reflexivity. }
  destruct (py_getitem config "destination_buckets") as [dest_buckets|e2] eqn:Hdst.
  2:{ apply (Hnothing (Raise (Exc e2))). unfold _process_bucket_config, bind.
      rewrite Hsrc. cbn [lift ret raise]. rewrite Hdst. reflexivity. }
  destruct (py_join ", " dest_buckets) as [joined|e3] eqn:Hjoin.
  2:{ apply (Hnothing (Raise (Exc e3))). unfold _process_bucket_config, bind.
      rewrite Hsrc. cbn [lift ret raise]. rewrite Hdst. cbn [lift ret raise].
      rewrite Hjoin. reflexivity. }
  destruct (py_join_iter _ _ _ Hjoin) as [dests Hiter].
  revert Hstages.
  rewrite (_process_bucket_config_steps _ _ _ _ _ st Hsrc Hdst Hjoin Hiter).
  intros Hstages.
  destruct (_validate_bucket_exists_run source st cl Hc) as (ev1 & Hcall1 & Hext1 & _).
  destruct (_validate_bucket_exists source st) as [o1 st1]. simpl in Hext1.
  assert (Hc1 : s3_client (self st1) = Some cl).
  { destruct Hext1 as (_ & Hk & _). congruence. }
  assert (Hhead1 : map call [ev1] = map HeadBucket [source])
    by (simpl; rewrite Hcall1; reflexivity).
  assert (Hsource_only : validate_list_copy [ev1]).
  { apply (validate_list_copy_stages [ev1] [] [] [source] []); simpl; auto. }
  destruct o1 as [[|]|e]; [|apply (Hstages [ev1]); assumption..].
  destruct (validate_destinations_run dests [] st1 cl Hc1) as (evs2 & Hext2 & Hres2).
  destruct (validate_destinations dests [] st1) as [o2 st2]. simpl in Hext2, Hres2.
  assert (Hc2 : s3_client (self st2) = Some cl).
  { destruct Hext2 as (_ & Hk & _). congruence. }
  assert (Hext12 : extends st st2 ([ev1] ++ evs2)) by (eapply extends_trans; eassumption).
  assert (Hheads : exists buckets, map call ([ev1] ++ evs2) = map HeadBucket buckets).
  { destruct o2 as [valid|e].
    - destruct Hres2 as [Hcalls2 _]. exists (source :: dests).
      simpl. rewrite Hcall1, Hcalls2. reflexivity.
    - destruct Hres2 as [_ [n Hcalls2]]. exists (source :: firstn n dests).
      simpl. rewrite Hcall1, Hcalls2. reflexivity. }
  destruct Hheads as [buckets Hheads].
  assert (Hvalidations : validate_list_copy ([ev1] ++ evs2)).
  { pose proof (validate_list_copy_stages ([ev1] ++ evs2) [] [] buckets [] Hheads) as H.
    simpl in H. rewrite app_nil_r in H. apply H; auto. }
  destruct o2 as [[|d ds]|e]; [apply (Hstages ([ev1] ++ evs2)); assumption | |
                               apply (Hstages ([ev1] ++ evs2)); assumption].
  destruct (_list_objects_run source st2 cl Hc2) as (ev3 & Hcall3 & Hext3 & _).
  destruct (_list_objects source st2) as [o3 st3]. simpl in Hext3.
  assert (Hc3 : s3_client (self st3) = Some cl).
  { destruct Hext3 as (_ & Hk & _). congruence. }
  assert (Hext13 : extends st st3 (([ev1] ++ evs2) ++ [ev3]))
    by (eapply extends_trans; eassumption).
  assert (Hlisting : forallb is_listing [ev3] = true).
  { simpl. unfold is_listing. rewrite Hcall3. reflexivity. }
  assert (Hlisted : validate_list_copy (([ev1] ++ evs2) ++ [ev3])).
  { pose proof (validate_list_copy_stages ([ev1] ++ evs2) [ev3] [] buckets [] Hheads) as H.
    simpl in H. apply H; auto. }
  destruct o3 as [[|o os]|e];
    [apply (Hstages (([ev1] ++ evs2) ++ [ev3])); assumption | |
     apply (Hstages (([ev1] ++ evs2) ++ [ev3])); assumption].
  destruct (_copy_objects_to_destinations_run source (o :: os) (d :: ds) st3 cl Hc3)
    as (evs4 & Hcalls4 & Hext4 & _).
  apply (Hstages ((([ev1] ++ evs2) ++ [ev3]) ++ evs4)).
  - eapply extends_trans; eassumption.
  - rewrite <- app_assoc.
    apply (validate_list_copy_stages ([ev1] ++ evs2) [ev3] evs4 buckets
             (pairs source (o :: os) (d :: ds)) Hheads);
      simpl; auto.
Qed.

(** ** Malformed plan entries *)

Lemma py_join_raises_TypeError (sep : string) (v : value) (e : exception) :
  py_join sep v = Error e -> e = TypeError.
Proof.
  unfold py_join, py_iter.
  destruct v; try (intros H; inversion H; reflexivity);
    match goal with
    | |- context [all_str ?l] => destruct (all_str l)
    end; intros H; inversion H; reflexivity.
Qed.

(** X8.  A plan entry that is not a dict, or whose destinations field
    cannot be joined as strings (it is not iterable, or holds an item
    that is not a string), raises [TypeError] before any call is made,
    the source is not even validated; the state is untouched and the
    orchestrator goes on with the next entry. *)
Theorem malformed_entry_raises_before_any_call
    {World : Type} {env : Environment World}
    (config : value) (rest : list value) (st : @state World) :
  is_dict config = false \/
  (exists source dest_buckets e,
     py_getitem config "source_bucket" = Ok source /\
     py_getitem config "destination_buckets" = Ok dest_buckets /\
     py_join ", " dest_buckets = Error e) ->
  _process_bucket_config config st = (Raise (Exc TypeError), st) /\
  process_all (config :: rest) st = process_all rest st.
Proof.
  intros Hbad.
  assert (Hraise : _process_bucket_config config st = (Raise (Exc TypeError), st)).
  { destruct Hbad as [Hno | (source & dest_buckets & e & Hsrc & Hdst & Hjoin)].
    - unfold _process_bucket_config, bind. destruct config; try discriminate; reflexivity.
    - unfold _process_bucket_config, bind.
      rewrite Hsrc. cbn [lift ret raise]. rewrite Hdst. cbn [lift ret raise].
      rewrite Hjoin. rewrite (py_join_raises_TypeError _ _ _ Hjoin). reflexivity. }
  split; [exact Hraise|].
  rewrite process_all_cons, Hraise. reflexivity.
Qed.

Lemma number_among_the_destinations_raises :
  py_join ", " (VList [VStr "B"; VInt 7]) = Error TypeError /\
  _process_bucket_config
    (VDict [(VStr "source_bucket", VStr "src");
            (VStr "destination_buckets", VList [VStr "B"; VInt 7])]) Mock.idle =
    (Raise (Exc TypeError), Mock.idle).
Proof.
  split; [reflexivity|].
  apply (malformed_entry_raises_before_any_call
           (VDict [(VStr "source_bucket", VStr "src");
                   (VStr "destination_buckets", VList [VStr "B"; VInt 7])])
           [] Mock.idle).
  right. exists (VStr "src"), (VList [VStr "B"; VInt 7]), TypeError.
  repeat split.
Defined.



(** X10.  A destinations field given as one string instead of a list is
    accepted and read character by character: the mapping is processed
    exactly as if its destinations were the one-character strings of
    that string. *)
Theorem string_of_destinations_is_read_by_character
    {World : Type} {env : Environment World}
    (config config' source : value) (s : string) (st : @state World) :
  py_getitem config "source_bucket" = Ok source ->
  py_getitem config "destination_buckets" = Ok (VStr s) ->
  py_getitem config' "source_bucket" = Ok source ->
  py_getitem config' "destination_buckets" = Ok (VList (characters s)) ->
  _process_bucket_config config st = _process_bucket_config config' st.
Proof.
  intros Hsrc Hdst Hsrc' Hdst'.
  assert (Hiter : py_iter (VStr s) = Ok (characters s)) by reflexivity.
  assert (Hiter' : py_iter (VList (characters s)) = Ok (characters s)) by reflexivity.
  assert (Hjoin : exists joined, py_join ", " (VStr s) = Ok joined).
  { unfold py_join. rewrite Hiter. unfold characters.
    rewrite <- (map_map (fun c => String c EmptyString) VStr), all_str_names. eauto. }
  destruct Hjoin as [joined Hjoin].
  assert (Hjoin' : py_join ", " (VList (characters s)) = Ok joined).
  { unfold py_join in *. rewrite Hiter in Hjoin. rewrite Hiter'. exact Hjoin. }
  rewrite (_process_bucket_config_steps config source (VStr s) joined (characters s) st
             Hsrc Hdst Hjoin Hiter).
  rewrite (_process_bucket_config_steps config' source (VList (characters s)) joined
             (characters s) st Hsrc' Hdst' Hjoin' Hiter').
  reflexivity.
Qed.

Lemma destinations_AB_are_A_and_B :
  py_getitem (VDict [(VStr "source_bucket", VStr "src");
                     (VStr "destination_buckets", VStr "AB")])
    "destination_buckets" = Ok (VStr "AB") /\
  _process_bucket_config
    (VDict [(VStr "source_bucket", VStr "src"); (VStr "destination_buckets", VStr "AB")])
    Mock.idle =
  _process_bucket_config (Mock.mapping "src" ["A"; "B"]) Mock.idle.
Proof.
  split; [reflexivity|].
  apply (string_of_destinations_is_read_by_character
           (VDict [(VStr "source_bucket", VStr "src"); (VStr "destination_buckets", VStr "AB")])
           (Mock.mapping "src" ["A"; "B"]) (VStr "src") "AB" Mock.idle);
    reflexivity.
Defined.

(** ** The run as a whole *)

(** X11.  Run from the state [main] starts it in, and with no interrupt
    cutting it short, [sync_buckets] returns or raises [SystemExit(1)],
    and nothing else.  It returns exactly when start-up went through and
    the failed counter is 0 at the end. *)
Theorem sync_buckets_returns_or_exits
    {World : Type} {env : Environment World} (w : World) :
  let r := sync_buckets (start w) in
  (fst r = Return tt \/ fst r = Raise (SystemExit 1)) /\
  (fst r = Return tt <-> startup_ok w /\ total_files_failed (self (snd r)) = 0).
Proof.
  cbv zeta. destruct (startup_ok_dec w) as [Hok | Hnot].
  - destruct (startup_ok_loaded w Hok) as (_ & _ & configs & Hiter).
    rewrite (sync_buckets_past_startup w configs Hok Hiter). cbn [fst snd].
    destruct (Nat.ltb_spec 0 (total_files_failed (self (snd (process_all configs (loaded w))))))
      as [Hpos | Hzero].
    + split; [auto|]. split; [intros H; discriminate | intros [_ H]; lia].
    + split; [auto|]. split; [intros _; split; [assumption | lia] | reflexivity].
  - destruct (sync_buckets_startup_failed w Hnot) as [Hexit _]. rewrite Hexit.
    split; [auto|]. split; [intros H; discriminate | intros [H _]; contradiction].
Qed.

Lemma clean_run_returns :
  (startup_ok (Mock.world_with (Mock.plan [Mock.mapping "src" ["D1"; "D2"]])) /\
   total_files_failed
     (self (snd (sync_buckets
                   (start (Mock.world_with (Mock.plan [Mock.mapping "src" ["D1"; "D2"]]))))))
     = 0) /\
  fst (sync_buckets (start (Mock.world_with (Mock.plan [Mock.mapping "src" ["D1"; "D2"]]))))
    = Return tt.
Proof.
  assert (H : startup_ok (Mock.world_with (Mock.plan [Mock.mapping "src" ["D1"; "D2"]])) /\
              total_files_failed
                (self (snd (sync_buckets
                              (start (Mock.world_with
                                        (Mock.plan [Mock.mapping "src" ["D1"; "D2"]]))))))
                = 0)
    by (split; [split; reflexivity | reflexivity]).
  split; [exact H|].
  apply (proj2 (sync_buckets_returns_or_exits
                  (Mock.world_with (Mock.plan [Mock.mapping "src" ["D1"; "D2"]])))).
  exact H.
Defined.

Lemma process_all_without_dict {World : Type} {env : Environment World}
    (configs : list value) :
  forallb (fun config => negb (is_dict config)) configs = true ->
  forall st : @state World, process_all configs st = (Return tt, st).
Proof.
  induction configs as [|config rest IH]; intros Hall st.
  - reflexivity.
  - simpl in Hall. apply andb_prop in Hall. destruct Hall as [Hno Hrest].
    rewrite process_all_cons.
    assert (Hraise : _process_bucket_config config st = (Raise (Exc TypeError), st)).
    { unfold _process_bucket_config, bind. destruct config; try discriminate; reflexivity. }
    rewrite Hraise. apply IH. exact Hrest.
Qed.

(** X14.  Once start-up has gone through, a plan with no dict among its
    entries makes the run a silent no-op: no call on the service, both
    counters at 0, status 0.  So it is for the empty plan, and for a
    ['buckets'] value given as a string or as a list of names. *)
Theorem plan_without_mapping_is_a_silent_success
    {World : Type} {env : Environment World} (w : World) (configs : list value) :
  startup_ok w ->
  py_iter (bucket_configs (self (loaded w))) = Ok configs ->
  forallb (fun config => negb (is_dict config)) configs = true ->
  main w = (Return tt, loaded w) /\
  exit_status (fst (main w)) = 0%Z /\
  calls (snd (main w)) = [] /\
  total_files_copied (self (snd (main w))) = 0 /\
  total_files_failed (self (snd (main w))) = 0.
Proof.
  intros Hok Hiter Hnone.
  destruct (startup_ok_loaded w Hok) as ((Hl & Hc0 & Hf0 & _) & _ & _).
  simpl in Hl, Hc0, Hf0.
  assert (Hrun : main w = (Return tt, loaded w)).
  { rewrite (sync_buckets_loaded w configs Hok Hiter).
    rewrite (process_all_without_dict configs Hnone). cbn [snd].
    rewrite Hf0. reflexivity. }
  rewrite Hrun. simpl. auto.
Qed.

Lemma plan_given_as_a_string_does_nothing :
  startup_ok (Mock.world_with (VDict [(VStr "buckets", VStr "src")])) /\
  py_iter (bucket_configs (self (loaded (Mock.world_with (VDict [(VStr "buckets", VStr "src")])))))
    = Ok [VStr "s"; VStr "r"; VStr "c"] /\
  exit_status (fst (main (Mock.world_with (VDict [(VStr "buckets", VStr "src")])))) = 0%Z /\
  calls (snd (main (Mock.world_with (VDict [(VStr "buckets", VStr "src")])))) = [].
Proof.
  assert (Hok : startup_ok (Mock.world_with (VDict [(VStr "buckets", VStr "src")])))
    by (split; reflexivity).
  split; [exact Hok|]. split; [reflexivity|].
  pose proof (plan_without_mapping_is_a_silent_success
                (Mock.world_with (VDict [(VStr "buckets", VStr "src")]))
                [VStr "s"; VStr "r"; VStr "c"] Hok eq_refl eq_refl)
    as (_ & Hexit & Hcalls & _).
  split; [exact Hexit | exact Hcalls].
Defined.

(** X12.  The orchestrator works through a plan strictly in order, and an
    entry never stops it: running a plan made of two parts is running the
    first part, then the second part from the state the first one left. *)
Theorem plan_in_two_parts
    {World : Type} {env : Environment World}
    (first_part second_part : list value) (st : @state World) :
  process_all (first_part ++ second_part) st =
  process_all second_part (snd (process_all first_part st)).
Proof.
  revert st. induction first_part as [|config rest IH]; intros st.
  - reflexivity.
  - simpl app. rewrite !process_all_cons. apply IH.
Qed.

(** ** What processing leaves alone *)

Lemma same_plan_refl {World : Type} (st : @state World) : same_plan st st.
Proof. unfold same_plan. auto. Qed.

Lemma same_plan_trans {World : Type} (st1 st2 st3 : @state World) :
  same_plan st1 st2 -> same_plan st2 st3 -> same_plan st1 st3.
Proof.
  unfold same_plan. intros (H1 & H2 & H3) (H4 & H5 & H6). repeat split; congruence.
Qed.

Lemma _validate_bucket_exists_self {World : Type} {env : Environment World}
    (bucket_name : value) (st : @state World) :
  self (snd (_validate_bucket_exists bucket_name st)) = self st.
Proof.
  unfold _validate_bucket_exists, try_except, bind, s3_call.
  destruct (s3_client (self st)); [|reflexivity].
  destruct (head_bucket bucket_name (world st)) as [w [[]|e]]; simpl; [reflexivity|].
  destruct e; reflexivity.
Qed.

Lemma _list_objects_self {World : Type} {env : Environment World}
    (bucket_name : value) (st : @state World) :
  self (snd (_list_objects bucket_name st)) = self st.
Proof.
  unfold _list_objects, try_except, bind, s3_call.
  destruct (s3_client (self st)); [|reflexivity].
  destruct (paginate bucket_name (world st)) as [w [pgs [e|]]]; simpl; [|reflexivity].
  destruct e; reflexivity.
Qed.

Lemma same_plan_of_self {World : Type} (st st' : @state World) :
  self st' = self st -> same_plan st st'.
Proof. intros H. unfold same_plan. rewrite H. auto. Qed.

Lemma same_plan_validate_destinations {World : Type} {env : Environment World}
    (dest_buckets : list value) :
  forall valid_dest_buckets,
    respects same_plan (validate_destinations dest_buckets valid_dest_buckets).
Proof.
  induction dest_buckets as [|d rest IH]; intros acc; simpl.
  - apply (respects_ret same_plan same_plan_refl).
  - apply (respects_bind same_plan same_plan_trans).
    + intros st. apply same_plan_of_self, _validate_bucket_exists_self.
    + intros [|]; apply IH.
Qed.

Lemma same_plan__process_bucket_config {World : Type} {env : Environment World}
    (config : value) :
  respects same_plan (_process_bucket_config config).
Proof.
  unfold _process_bucket_config.
  apply (respects_bind same_plan same_plan_trans);
    [apply (respects_lift same_plan same_plan_refl)|]. intros source.
  apply (respects_bind same_plan same_plan_trans);
    [apply (respects_lift same_plan same_plan_refl)|]. intros dest_buckets.
  apply (respects_bind same_plan same_plan_trans);
    [apply (respects_lift same_plan same_plan_refl)|]. intros _.
  apply (respects_bind same_plan same_plan_trans).
  { intros st. apply same_plan_of_self, _validate_bucket_exists_self. }
  intros [|]; simpl; [|apply (respects_ret same_plan same_plan_refl)].
  apply (respects_bind same_plan same_plan_trans);
    [apply (respects_lift same_plan same_plan_refl)|]. intros dests.
  apply (respects_bind same_plan same_plan_trans);
    [apply same_plan_validate_destinations|].
  intros [|d ds]; [apply (respects_ret same_plan same_plan_refl)|].
  apply (respects_bind same_plan same_plan_trans).
  { intros st. apply same_plan_of_self, _list_objects_self. }
  intros [|o os]; [apply (respects_ret same_plan same_plan_refl)|].
  unfold _copy_objects_to_destinations.
  destruct (Nat.eqb _ 0); [apply (respects_ret same_plan same_plan_refl)|].
  apply (respects_for_each same_plan same_plan_refl same_plan_trans). intros obj.
  apply (respects_for_each same_plan same_plan_refl same_plan_trans). intros dest.
  intros st. apply copy_pair_counts_one.
Qed.

(** X13.  Validating a bucket, listing one and copying one object leave
    [self] exactly as it was.  Processing a mapping, or a whole plan,
    changes nothing of [self] but the two counters: the file name, the
    client handle and the loaded plan are as they were. *)
Theorem processing_changes_only_the_counters
    {World : Type} {env : Environment World} (st : @state World) :
  (forall bucket_name, self (snd (_validate_bucket_exists bucket_name st)) = self st) /\
  (forall bucket_name, self (snd (_list_objects bucket_name st)) = self st) /\
  (forall source_bucket dest_bucket obj_key,
     self (snd (_copy_object source_bucket dest_bucket obj_key st)) = self st) /\
  (forall config, same_plan st (snd (_process_bucket_config config st))) /\
  (forall configs, same_plan st (snd (process_all configs st))).
Proof.
  split; [intros b; apply _validate_bucket_exists_self|].
  split; [intros b; apply _list_objects_self|].
  split.
  { intros s d k. destruct (_copy_object_answers s d k st) as (copied & _ & Hself).
    exact Hself. }
  split; [intros config; apply same_plan__process_bucket_config|].
  intros configs. revert st. induction configs as [|config rest IH]; intros st.
  - apply same_plan_refl.
  - rewrite process_all_cons.
    eapply same_plan_trans; [apply same_plan__process_bucket_config | apply IH].
Qed.
